(** * chat/views.py: chunk identity, incremental ingestion, retrieval

    A shallow embedding of the functions of [chat/views.py]
    ([calculate_chunk_ids], [add_to_chroma], [clear_database], [ask_chroma],
    [populate_database], [chatbot]) and the properties of the chunk identity
    scheme, of ingestion and of the retrieval pipeline that follow from them.

    The Python values are modelled as the code uses them: a chunk is a
    [Document] with a text and a metadata dictionary from strings to Python
    values; f-strings render a value with [py_str]; the loop counter of
    [calculate_chunk_ids] is an unbounded integer that only grows, a [nat].
    The services the file calls but does not define (the Chroma collection,
    the prompt template, the language model, the splitter, [repr] on strings)
    are taken as an interface. *)

From Stdlib Require Import ZArith Lia Ascii.
From stdpp Require Import base option list gmap strings pretty.


(** ** Python values and dictionaries *)

(** The values a metadata dictionary holds here: [None], a [str], an [int]. *)
Inductive pyval : Type :=
  | PNone
  | PStr (s : string)
  | PInt (z : Z).

#[global] Instance pyval_eq_dec : EqDecision pyval.
Proof. solve_decision. Defined.

Definition pyval_encode (v : pyval) : option (string + Z) :=
  match v with
  | PNone => None
  | PStr s => Some (inl s)
  | PInt z => Some (inr z)
  end.

Definition pyval_decode (o : option (string + Z)) : pyval :=
  match o with
  | None => PNone
  | Some (inl s) => PStr s
  | Some (inr z) => PInt z
  end.

#[global] Instance pyval_countable : Countable pyval.
Proof.
  apply (inj_countable' pyval_encode pyval_decode).
  intros v. destruct v; reflexivity.
Defined.

(** [str(v)], which is also how an f-string field [{v}] renders [v]. *)
Definition py_str (v : pyval) : string :=
  match v with
  | PNone => "None"
  | PStr s => s
  | PInt z => pretty z
  end.

(** [d.get(key)]: the value, or [None] when the key is absent. *)
Definition dict_get (d : gmap string pyval) (key : string) : pyval :=
  default PNone (d !! key).

(** The exceptions the model distinguishes. *)
Inductive exn : Type :=
  | KeyError (key : string)
  | FileNotFoundError (path : string)
  | NotADirectoryError (path : string)
  | OSError (what : string)
  | ServiceError (what : string).

(** The outcome of a computation that may raise. *)
Inductive result (A : Type) : Type :=
  | Ok (a : A)
  | Raise (e : exn).
Arguments Ok {A} a.
Arguments Raise {A} e.

(** [d[key]]: raises [KeyError] when the key is absent. *)
Definition dict_getitem (d : gmap string pyval) (key : string) : result pyval :=
  match d !! key with
  | Some v => Ok v
  | None => Raise (KeyError key)
  end.

(** ** Documents *)

(** langchain's [Document]: [page_content] and [metadata]. *)
Record Document : Type := mkDocument {
  page_content : string;
  metadata : gmap string pyval
}.

#[global] Instance Document_eq_dec : EqDecision Document.
Proof. solve_decision. Defined.

(** [chunk.metadata[key] = v] *)
Definition set_metadata (chunk : Document) (key : string) (v : pyval) : Document :=
  {| page_content := page_content chunk;
     metadata := <[key := v]> (metadata chunk) |}.

(** ** calculate_chunk_ids *)

(** [current_page_id = f"{source}:{page}"] with
    [source = chunk.metadata.get("source")] and
    [page = chunk.metadata.get("page")]. *)
Definition page_id_of (chunk : Document) : string :=
  let source := dict_get (metadata chunk) "source" in
  let page := dict_get (metadata chunk) "page" in
  py_str source +:+ ":" +:+ py_str page.

(** The [if current_page_id == last_page_id] statement: the new value of
    [current_chunk_index]. [last_page_id] starts as [None], which equals no
    string. *)
Definition next_chunk_index (last_page_id : option string)
    (current_page_id : string) (current_chunk_index : nat) : nat :=
  if decide (last_page_id = Some current_page_id)
  then S current_chunk_index
  else 0.

(** [chunk_id = f"{current_page_id}:{current_chunk_index}"] *)
Definition chunk_id_string (current_page_id : string) (current_chunk_index : nat) : string :=
  current_page_id +:+ ":" +:+ pretty current_chunk_index.

(** The [for chunk in chunks] loop over chunk objects that are pairwise
    distinct, from the loop state [(last_page_id, current_chunk_index)]: the
    list of the chunks as the loop leaves them. *)
Fixpoint chunk_ids_loop (last_page_id : option string) (current_chunk_index : nat)
    (chunks : list Document) : list Document :=
  match chunks with
  | [] => []
  | chunk :: rest =>
      let current_page_id := page_id_of chunk in
      let current_chunk_index :=
        next_chunk_index last_page_id current_page_id current_chunk_index in
      let chunk_id := chunk_id_string current_page_id current_chunk_index in
      set_metadata chunk "id" (PStr chunk_id)
        :: chunk_ids_loop (Some current_page_id) current_chunk_index rest
  end.

Definition calculate_chunk_ids (chunks : list Document) : list Document :=
  chunk_ids_loop None 0 chunks.

(** The id a chunk carries, [chunk.metadata.get("id")]. *)
Definition id_of (chunk : Document) : pyval := dict_get (metadata chunk) "id".

(** *** The same loop on chunk objects held by reference

    [calculate_chunk_ids] writes [chunk.metadata["id"]] into the objects the
    list refers to and returns the list it was given. Here the objects live
    in a store indexed by references, the list holds references (the same
    object may occur more than once), and the loop reads and writes the
    store. A reference with no object has no counterpart in Python; the loop
    stops with [None] there. Every [Document] owns its metadata dictionary,
    as the splitter builds them. *)
Module InPlace.

Fixpoint chunk_ids_loop (last_page_id : option string) (current_chunk_index : nat)
    (chunks : list positive) (objs : gmap positive Document)
    : option (gmap positive Document) :=
  match chunks with
  | [] => Some objs
  | r :: rest =>
      match objs !! r with
      | None => None
      | Some chunk =>
          let current_page_id := page_id_of chunk in
          let current_chunk_index :=
            next_chunk_index last_page_id current_page_id current_chunk_index in
          let chunk_id := chunk_id_string current_page_id current_chunk_index in
          chunk_ids_loop (Some current_page_id) current_chunk_index rest
            (<[r := set_metadata chunk "id" (PStr chunk_id)]> objs)
      end
  end.

(** The returned pair: the list (the argument itself) and the store after
    the loop. *)
Definition calculate_chunk_ids (chunks : list positive) (objs : gmap positive Document)
    : option (list positive * gmap positive Document) :=
  match chunk_ids_loop None 0 chunks objs with
  | Some objs' => Some (chunks, objs')
  | None => None
  end.

(** The documents a list of references denotes in a store. *)
Definition deref (objs : gmap positive Document) (chunks : list positive)
    : option (list Document) :=
  mapM (λ r, objs !! r) chunks.

End InPlace.

(** ** The services the file calls

    The Chroma collection, the prompt template, the language model, the PDF
    loader and the splitter are libraries and network services. The program
    sees them through the calls below; what it relies on is stated as laws
    ([VectorStoreLaws]), and a call that can fail returns a [result]. A call
    that writes gives the state it leaves also when it raises: a failed
    [add_documents] may have stored a part of the batch. *)

(** The state of a Chroma collection, as the program observes it. *)
Class VectorStore (S Score : Type) : Type := {
  (** the collection a directory without an index opens as *)
  store_empty : S;
  (** [db.get(include=[])["ids"]] *)
  store_ids : S → list pyval;
  (** [db.add_documents(docs, ids=ids)] *)
  store_add_documents : list Document → list pyval → S → result unit * S;
  (** [db.similarity_search_with_score(query, k)] *)
  store_similarity_search_with_score : pyval → Z → S → result (list (Document * Score));
  (** the document stored under an id *)
  store_entry : S → pyval → option Document
}.

(** What ingestion relies on: the listed ids are the ids of the stored
    entries, an [add_documents] leaves every id outside the batch as it was,
    and an [add_documents] that returns stores every id of the batch, and
    under a fresh id of the batch a document that the batch gives for that
    id. *)
Class VectorStoreLaws (S Score : Type) `{VectorStore S Score} : Prop := {
  store_ids_entry (s : S) (k : pyval) :
    k ∈ store_ids s ↔ is_Some (store_entry s k);
  store_add_frame (docs : list Document) (ids : list pyval) (s s' : S)
      (r : result unit) (k : pyval) :
    store_add_documents docs ids s = (r, s') →
    k ∉ ids → store_entry s' k = store_entry s k;
  store_add_present (docs : list Document) (ids : list pyval) (s s' : S) (k : pyval) :
    store_add_documents docs ids s = (Ok (), s') →
    length docs = length ids →
    k ∈ ids → is_Some (store_entry s' k);
  store_add_entry (docs : list Document) (ids : list pyval) (s s' : S)
      (k : pyval) (d : Document) :
    store_add_documents docs ids s = (Ok (), s') →
    length docs = length ids →
    store_entry s k = None →
    store_entry s' k = Some d →
    ∃ n, ids !! n = Some k ∧ docs !! n = Some d
}.

(** The other collaborators. *)
Class Services : Type := {
  (** [PyPDFDirectoryLoader(path).load()] *)
  loader_load : string → result (list Document);
  (** [RecursiveCharacterTextSplitter(chunk_size=800, chunk_overlap=80,
      length_function=len, is_separator_regex=False).split_documents(documents)] *)
  splitter_split_documents : list Document → list Document;
  (** [ChatPromptTemplate.from_template(template).format(context=c, question=q)] *)
  prompt_template_format : string → string → pyval → string;
  (** [Ollama(model="mistral").invoke(prompt)] *)
  model_invoke : string → result string;
  (** [repr(s)] of a [str] *)
  py_repr_str : string → string
}.

(** ** Constants *)

Definition CHROMA_PATH : string := "chroma".
Definition DATA_PATH : string := "data".
Definition PROMPT_TEMPLATE : string := "
Answer the question based only on the following context:

{context}

---

Answer the question based on the above context: {question}
".

(** The separator of the context block, a blank line, three dashes and a
    blank line. *)
Definition CONTEXT_SEPARATOR : string := "

---

".

(** ** Exceptions and the state of the world *)

#[global] Instance result_ret : MRet result := λ A a, Ok a.
#[global] Instance result_bind : MBind result := λ A B f m,
  match m with
  | Ok a => f a
  | Raise e => Raise e
  end.

Section Program.
Context {S Score : Type} `{!VectorStore S Score} `{!Services}.

(** What the program reads and writes: the directories of the working
    directory that hold a persisted index, by path ([CHROMA_PATH] is the only
    one the program names), and the lines printed so far. A path of [fs] is
    a directory; what [clear_database] does when the index path is a regular
    file or a symbolic link is in [Files] below. *)
Record world : Type := mkWorld {
  fs : gmap string S;
  stdout : list string
}.

(** A statement: from a world, a value or an exception, and the world it
    leaves. What was written before an exception stays written. *)
Definition M (A : Type) : Type := world → result A * world.

#[global] Instance M_ret : MRet M := λ A a w, (Ok a, w).
#[global] Instance M_bind : MBind M := λ A B f m w,
  match m w with
  | (Ok a, w') => f a w'
  | (Raise e, w') => (Raise e, w')
  end.

(** A call that returns or raises and leaves the world as it is. *)
Definition lift {A : Type} (r : result A) : M A := λ w, (r, w).

(** [print(line)] *)
Definition print (line : string) : M unit :=
  λ w, (Ok (), {| fs := fs w; stdout := stdout w ++ [line] |}).

(** [os.path.exists(path)] *)
Definition os_path_exists (path : string) : M bool :=
  λ w, (Ok (bool_decide (is_Some (fs w !! path))), w).

(** [shutil.rmtree(path)] where the paths are directories: removes the
    directory and what it holds; raises when there is nothing at [path]. *)
Definition shutil_rmtree (path : string) : M unit :=
  λ w, match fs w !! path with
       | Some _ => (Ok (), {| fs := delete path (fs w); stdout := stdout w |})
       | None => (Raise (FileNotFoundError path), w)
       end.

(** The world once the index of a directory is open: the directory exists,
    with an empty collection when it did not. *)
Definition opened (persist_directory : string) (w : world) : world :=
  match fs w !! persist_directory with
  | Some _ => w
  | None => {| fs := <[persist_directory := store_empty]> (fs w); stdout := stdout w |}
  end.

(** [Chroma(persist_directory=path, embedding_function=...)], taken in the
    case where the index opens: the index of the directory, which it creates
    when it does not exist. The handle is the path. *)
Definition Chroma (persist_directory : string) : M string :=
  λ w, (Ok persist_directory, opened persist_directory w).

(** The collection behind a handle. *)
Definition collection (db : string) (w : world) : S :=
  default store_empty (fs w !! db).

(** [db.get(include=[])["ids"]] *)
Definition db_get_ids (db : string) : M (list pyval) :=
  λ w, (Ok (store_ids (collection db w)), w).

(** [db.add_documents(docs, ids=ids)] *)
Definition db_add_documents (db : string) (docs : list Document) (ids : list pyval)
    : M unit :=
  λ w, let '(r, s') := store_add_documents docs ids (collection db w) in
       (r, {| fs := <[db := s']> (fs w); stdout := stdout w |}).

(** [db.similarity_search_with_score(query, k)] *)
Definition db_similarity_search_with_score (db : string) (query : pyval) (k : Z)
    : M (list (Document * Score)) :=
  λ w, (store_similarity_search_with_score query k (collection db w), w).

(** ** load_documents, split_documents *)

(** The loader reads the data directory at the moment of the call; the
    documents it finds there are those of the [Services] at hand. *)
Definition load_documents : M (list Document) :=
  lift (loader_load DATA_PATH).

Definition split_documents (documents : list Document) : list Document :=
  splitter_split_documents documents.

(** ** add_to_chroma *)

(** The loop [for chunk in chunks_with_ids: if chunk.metadata["id"] not in
    existing_ids: new_chunks.append(chunk)], from the list [new_chunks] built
    so far. *)
Fixpoint select_new_chunks (existing_ids : gset pyval) (chunks_with_ids : list Document)
    (new_chunks : list Document) : result (list Document) :=
  match chunks_with_ids with
  | [] => Ok new_chunks
  | chunk :: rest =>
      chunk_id ← dict_getitem (metadata chunk) "id";
      if decide (chunk_id ∉ existing_ids)
      then select_new_chunks existing_ids rest (new_chunks ++ [chunk])
      else select_new_chunks existing_ids rest new_chunks
  end.

(** [[chunk.metadata["id"] for chunk in new_chunks]] *)
Fixpoint chunk_ids_of (new_chunks : list Document) : result (list pyval) :=
  match new_chunks with
  | [] => Ok []
  | chunk :: rest =>
      chunk_id ← dict_getitem (metadata chunk) "id";
      ids ← chunk_ids_of rest;
      Ok (chunk_id :: ids)
  end.

(** The chunks are pairwise distinct objects, as [split_documents] builds
    them, so the list that [calculate_chunk_ids] returns is the list of the
    chunks with their ids (see [inplace_calculate_chunk_ids_refines]). *)
Definition add_to_chroma (chunks : list Document) : M unit :=
  db ← Chroma CHROMA_PATH;
  let chunks_with_ids := calculate_chunk_ids chunks in
  existing_items ← db_get_ids db;
  let existing_ids : gset pyval := list_to_set existing_items in
  print ("Number of existing documents in DB: " +:+ pretty (size existing_ids));;
  new_chunks ← lift (select_new_chunks existing_ids chunks_with_ids []);
  if decide (length new_chunks ≠ 0)
  then
    print ("👉 Adding new documents: " +:+ pretty (length new_chunks));;
    new_chunk_ids ← lift (chunk_ids_of new_chunks);
    db_add_documents db new_chunks new_chunk_ids
  else
    print "✅ No new documents to add".

(** The chunks of a sequence whose id is not among the stored ids. *)
Definition new_chunks_among (existing_ids : gset pyval) (chunks_with_ids : list Document)
    : list Document :=
  filter (λ chunk, id_of chunk ∉ existing_ids) chunks_with_ids.

(** ** clear_database *)

Definition clear_database : M unit :=
  path_exists ← os_path_exists CHROMA_PATH;
  if (path_exists : bool)
  then shutil_rmtree CHROMA_PATH
  else mret ().

(** ** ask_chroma *)

(** [repr(v)], with [repr] on strings a service. *)
Definition py_repr (v : pyval) : string :=
  match v with
  | PNone => "None"
  | PStr s => py_repr_str s
  | PInt z => pretty z
  end.

(** [str(l)] of a list, as an f-string field renders it. *)
Definition py_str_list (l : list pyval) : string :=
  "[" +:+ String.concat ", " (py_repr <$> l) +:+ "]".

(** [context_text = "\n\n---\n\n".join([doc.page_content for doc, _score in results])] *)
Definition context_text_of (results : list (Document * Score)) : string :=
  String.concat CONTEXT_SEPARATOR ((λ r, page_content r.1) <$> results).

(** [sources = [doc.metadata.get("id", None) for doc, _score in results]] *)
Definition sources_of (results : list (Document * Score)) : list pyval :=
  (λ r, default PNone (metadata r.1 !! "id")) <$> results.

Definition ask_chroma (message : pyval) (n_results : Z) : M string :=
  db ← Chroma CHROMA_PATH;
  results ← db_similarity_search_with_score db message n_results;
  let context_text := context_text_of results in
  let prompt := prompt_template_format PROMPT_TEMPLATE context_text message in
  answer ← lift (model_invoke prompt);
  let sources := sources_of results in
  let formatted_response :=
    "Response: " +:+ answer +:+ "<br>Sources: " +:+ py_str_list sources in
  print formatted_response;;
  mret formatted_response.

(** ** populate_database *)

Definition populate_database : M unit :=
  documents ← load_documents;
  let chunks := split_documents documents in
  add_to_chroma chunks.

(** ** chatbot *)

(** The request, as [chatbot] reads it: [request.method] and [request.POST]. *)
Record HttpRequest : Type := mkRequest {
  method : string;
  POST : gmap string string
}.

(** What [chatbot] returns: [JsonResponse(data)] or
    [render(request, template_name)]. *)
Inductive HttpResponse : Type :=
  | JsonResponse (data : gmap string pyval)
  | render (request : HttpRequest) (template_name : string).

(** [request.POST.get('message')] *)
Definition post_get (request : HttpRequest) (key : string) : pyval :=
  match POST request !! key with
  | Some s => PStr s
  | None => PNone
  end.

Definition chatbot (request : HttpRequest) : M HttpResponse :=
  if decide (method request = "POST")
  then
    let message := post_get request "message" in
    if decide (message = PStr "Populate")
    then
      print "Populate Database";;
      populate_database;;
      mret (JsonResponse {[ "message" := message;
                            "response" := PStr "Database populated" ]})
    else if decide (message = PStr "Clear")
    then
      print "Clear Database";;
      clear_database;;
      mret (JsonResponse {[ "message" := message;
                            "response" := PStr "Database cleared" ]})
    else
      response ← ask_chroma message 4;
      mret (JsonResponse {[ "message" := message;
                            "response" := PStr response ]})
  else mret (render request "chatbot.html").

End Program.

Arguments world S : clear implicits.
Arguments M S A : clear implicits.

(** ** clear_database, whatever is at the index path

    [os.path.exists] and [shutil.rmtree] on a path that need not be a
    directory: [os.path.exists] follows a symbolic link, [shutil.rmtree]
    refuses one, and refuses a regular file. *)

Module Files.

(** What a path names. A directory holds an index; of a symbolic link, what
    matters is whether what it points to exists. *)
Inductive node (S : Type) : Type :=
  | Directory (index : S)
  | RegularFile
  | Symlink (target_exists : bool).
Arguments Directory {S} index.
Arguments RegularFile {S}.
Arguments Symlink {S} target_exists.

Section Program.
Context {S : Type}.

(** A statement over the names of the working directory. *)
Definition M (A : Type) : Type := gmap string (node S) → result A * gmap string (node S).

(** [os.path.exists(path)]: false when nothing is at [path], and for a link
    to something that does not exist. *)
Definition os_path_exists (path : string) : M bool :=
  λ nodes, (Ok match nodes !! path with
               | None => false
               | Some (Directory _) => true
               | Some RegularFile => true
               | Some (Symlink target_exists) => target_exists
               end, nodes).

(** [shutil.rmtree(path)]: removes a directory and what it holds; raises on
    a symbolic link, on a regular file and on a missing path, which it
    leaves as they are. *)
Definition shutil_rmtree (path : string) : M unit :=
  λ nodes, match nodes !! path with
           | Some (Directory _) => (Ok (), delete path nodes)
           | Some (Symlink _) =>
               (Raise (OSError "Cannot call rmtree on a symbolic link"), nodes)
           | Some RegularFile => (Raise (NotADirectoryError path), nodes)
           | None => (Raise (FileNotFoundError path), nodes)
           end.

Definition clear_database : M unit :=
  λ nodes, match os_path_exists CHROMA_PATH nodes with
           | (Ok path_exists, nodes') =>
               if (path_exists : bool)
               then shutil_rmtree CHROMA_PATH nodes'
               else (Ok (), nodes')
           | (Raise e, nodes') => (Raise e, nodes')
           end.

End Program.

End Files.

(** The names of a world, each a directory. *)
Definition directories {S : Type} (w : world S) : gmap string (Files.node S) :=
  Files.Directory <$> fs w.

(** ** The identity scheme as the design states it

    "Maintain a current page identity [sourcePath:pageNumber] and a running
    counter. While the incoming chunk's page identity equals the previous
    chunk's, increment the counter; when it changes, reset the counter to 0.
    Set [id = f"{sourcePath}:{pageNumber}:{chunkIndex}"]."  These definitions
    follow that text, by position in the sequence; [calculate_chunk_ids] is
    compared with them below. *)

Definition spec_page_identity (chunk : Document) : string :=
  py_str (dict_get (metadata chunk) "source") +:+ ":"
  +:+ py_str (dict_get (metadata chunk) "page").

(** The counter at position [i]: 0 at the first chunk and where the page
    identity differs from the previous chunk's, one more than the previous
    chunk's counter otherwise. *)
Fixpoint spec_chunk_index (chunks : list Document) (i : nat) : nat :=
  match i with
  | 0 => 0
  | S j =>
      match chunks !! j, chunks !! i with
      | Some previous, Some incoming =>
          if decide (spec_page_identity incoming = spec_page_identity previous)
          then S (spec_chunk_index chunks j)
          else 0
      | _, _ => 0
      end
  end.

Definition spec_chunk_id (chunk : Document) (chunkIndex : nat) : string :=
  py_str (dict_get (metadata chunk) "source") +:+ ":"
  +:+ py_str (dict_get (metadata chunk) "page") +:+ ":"
  +:+ pretty chunkIndex.

(** Page-grouped order: the chunks of one page identity are contiguous, that
    is, between two chunks of a page there is no chunk of another page. *)
Definition page_grouped (chunks : list Document) : Prop :=
  ∀ i j k ci cj ck,
    i < j < k →
    chunks !! i = Some ci → chunks !! j = Some cj → chunks !! k = Some ck →
    page_id_of ci = page_id_of ck →
    page_id_of cj = page_id_of ci.

(** A check of page-grouped order: [reappears x rest] when, in [rest], [x]
    occurs after an element other than [x]. *)
Fixpoint reappears (x : string) (rest : list string) : bool :=
  match rest with
  | [] => false
  | y :: rest' => if decide (y = x) then reappears x rest' else bool_decide (x ∈ rest')
  end.

Fixpoint contiguous (ids : list string) : bool :=
  match ids with
  | [] => true
  | x :: rest => negb (reappears x rest) && contiguous rest
  end.

(** A chunk as the loader and the splitter produce them: the source is a
    path, the page a number. *)
Definition well_typed (chunk : Document) : Prop :=
  (∃ source, metadata chunk !! "source" = Some (PStr source))
  ∧ (∃ page, metadata chunk !! "page" = Some (PInt page)).

(** The context block as the design states it: the texts in the order of the
    results, the separator between consecutive texts. *)
Definition spec_context_block (separator : string) (texts : list string) : string :=
  match texts with
  | [] => ""
  | first :: others => foldl (λ block text, block +:+ separator +:+ text) first others
  end.

(** A document that differs from another in the ["id"] key at most. *)
Definition same_but_id (d d' : Document) : Prop :=
  page_content d' = page_content d
  ∧ ∀ key, key ≠ "id" → metadata d' !! key = metadata d !! key.

(** A character of a string. *)
Fixpoint occurs (c : ascii) (s : string) : Prop :=
  match s with
  | EmptyString => False
  | String a s' => a = c ∨ occurs c s'
  end.

(** ** A collection kept as a finite map, and stand-ins for the services

    One implementation of the interface: [add_documents] stores each document
    under its id, the later of two documents with one id winning; the search
    returns the first [k] entries in key order, scored by rank, and, as
    Chroma does, refuses a number of results that is not positive. It shows
    that the laws can be met and gives the statements below concrete
    instances. *)

Definition map_store_add (docs : list Document) (ids : list pyval)
    (s : gmap pyval Document) : gmap pyval Document :=
  foldl (λ s' kd, <[kd.1 := kd.2]> s') s (zip ids docs).

#[global] Instance map_store : VectorStore (gmap pyval Document) nat := {|
  store_empty := ∅;
  store_ids := λ s, (map_to_list s).*1;
  store_add_documents := λ docs ids s, (Ok (), map_store_add docs ids s);
  store_similarity_search_with_score := λ query k s,
    if decide (0 < k)%Z
    then Ok (take (Z.to_nat k) (imap (λ rank kd, (kd.2, rank)) (map_to_list s)))
    else Raise (ServiceError "number of requested results");
  store_entry := λ s k, s !! k
|}.

(** A second implementation, which refuses a batch that names an id twice
    and then stores nothing. *)
Definition strict_store : VectorStore (gmap pyval Document) nat := {|
  store_empty := ∅;
  store_ids := λ s, (map_to_list s).*1;
  store_add_documents := λ docs ids s,
    if decide (NoDup ids)
    then (Ok (), map_store_add docs ids s)
    else (Raise (ServiceError "duplicate ids"), s);
  store_similarity_search_with_score := λ query k s,
    if decide (0 < k)%Z
    then Ok (take (Z.to_nat k) (imap (λ rank kd, (kd.2, rank)) (map_to_list s)))
    else Raise (ServiceError "number of requested results");
  store_entry := λ s k, s !! k
|}.

(** A splitter that cuts a text into chunks of one character each. *)
Definition split_characters (document : Document) : list Document :=
  (λ c, {| page_content := String c EmptyString; metadata := metadata document |})
    <$> String.list_ascii_of_string (page_content document).

Definition example_services : Services := {|
  loader_load := λ path,
    Ok [ {| page_content := "abc";
            metadata := {[ "source" := PStr (path +:+ "/doc.pdf"); "page" := PInt 0 ]} |} ];
  splitter_split_documents := λ documents, documents ≫= split_characters;
  prompt_template_format := λ template context question,
    "Human: " +:+ context +:+ " | " +:+ py_str question;
  model_invoke := λ prompt, Ok ("echo " +:+ prompt);
  py_repr_str := λ s, "'" +:+ s +:+ "'"
|}.

Definition mk_chunk (text source : string) (page : Z) : Document :=
  {| page_content := text;
     metadata := {[ "source" := PStr source; "page" := PInt page ]} |}.

Definition populate_request : HttpRequest :=
  {| method := "POST"; POST := {[ "message" := "Populate" ]} |}.

Definition empty_world : world (gmap pyval Document) :=
  {| fs := ∅; stdout := [] |}.

(** The index and the chunks of the design's deduplication example: ids
    [A:0:0] and [A:0:1] are stored, the document gives three chunks of page 0
    of [A]. *)
Definition dedup_index : gmap pyval Document :=
  {[ PStr "A:0:0" := set_metadata (mk_chunk "old first" "A" 0) "id" (PStr "A:0:0");
     PStr "A:0:1" := set_metadata (mk_chunk "old second" "A" 0) "id" (PStr "A:0:1") ]}.

Definition dedup_world : world (gmap pyval Document) :=
  {| fs := {[ CHROMA_PATH := dedup_index ]}; stdout := [] |}.

Definition dedup_chunks : list Document :=
  [mk_chunk "first" "A" 0; mk_chunk "second" "A" 0; mk_chunk "third" "A" 0].

(** The functions at the map-backed collection and the stand-in services. *)
Abbreviation run_add_to_chroma :=
  (@add_to_chroma (gmap pyval Document) nat map_store) (only parsing).
Abbreviation run_ask_chroma :=
  (@ask_chroma (gmap pyval Document) nat map_store example_services) (only parsing).
Abbreviation run_chatbot :=
  (@chatbot (gmap pyval Document) nat map_store example_services) (only parsing).

(** The world that ingesting the three chunks leaves. *)
Definition dedup_world_after : world (gmap pyval Document) :=
  (run_add_to_chroma dedup_chunks dedup_world).2.

(** The worlds after a first and after a second populate request. *)
Definition populated_world : world (gmap pyval Document) :=
  (run_chatbot populate_request empty_world).2.

Definition populated_twice_world : world (gmap pyval Document) :=
  (run_chatbot populate_request populated_world).2.

(** Chunks of two pages, out of page-grouped order. *)
Definition interleaved_chunks : list Document :=
  [mk_chunk "a" "doc.pdf" 0; mk_chunk "b" "doc.pdf" 1; mk_chunk "c" "doc.pdf" 0].

(** Chunks of two documents, page by page. *)
Definition two_documents : list Document :=
  [mk_chunk "a" "doc.pdf" 0; mk_chunk "b" "doc.pdf" 0; mk_chunk "c" "doc.pdf" 1;
   mk_chunk "d" "other.pdf" 0].

(** An index with an entry that has no id in its metadata. *)
Definition anonymous_world : world (gmap pyval Document) :=
  {| fs := {[ CHROMA_PATH :=
                {[ PStr "A:0:0" := set_metadata (mk_chunk "first" "A" 0) "id" (PStr "A:0:0");
                   PStr "B" := {| page_content := "second"; metadata := ∅ |} ]} ]};
     stdout := [] |}.

(** Chunk objects, and a list that refers to one of them twice. *)
Definition shared_objects : gmap positive Document :=
  {[ 1%positive := mk_chunk "a" "doc.pdf" 0;
     2%positive := mk_chunk "b" "doc.pdf" 0;
     3%positive := mk_chunk "c" "other.pdf" 5 ]}.

Definition shared_chunks : list positive := [1%positive; 2%positive; 1%positive].

(** Chunks that come with ids of an earlier run. *)
Definition stale_documents : list Document :=
  (λ chunk, set_metadata chunk "id" (PStr "stale")) <$> two_documents.

(** Services whose loader fails. *)
Definition failing_loader_services : Services := {|
  loader_load := λ path, Raise (ServiceError "unreadable pdf");
  splitter_split_documents := λ documents, documents ≫= split_characters;
  prompt_template_format := λ template context question,
    "Human: " +:+ context +:+ " | " +:+ py_str question;
  model_invoke := λ prompt, Ok ("echo " +:+ prompt);
  py_repr_str := λ s, "'" +:+ s +:+ "'"
|}.

(** Services whose model fails. *)
Definition failing_model_services : Services := {|
  loader_load := λ path, Ok [];
  splitter_split_documents := λ documents, documents;
  prompt_template_format := λ template context question,
    "Human: " +:+ context +:+ " | " +:+ py_str question;
  model_invoke := λ prompt, Raise (ServiceError "model unreachable");
  py_repr_str := λ s, "'" +:+ s +:+ "'"
|}.

(** Services of a later moment: the data directory holds the same text cut
    into three documents that are not split further, and the model is
    down. *)
Definition later_services : Services := {|
  loader_load := λ path,
    Ok [ mk_chunk "a" (path +:+ "/doc.pdf") 0; mk_chunk "b" (path +:+ "/doc.pdf") 0;
         mk_chunk "c" (path +:+ "/doc.pdf") 0 ];
  splitter_split_documents := λ documents, documents;
  prompt_template_format := λ template context question,
    "Human: " +:+ context +:+ " | " +:+ py_str question;
  model_invoke := λ prompt, Raise (ServiceError "model unreachable");
  py_repr_str := λ s, "'" +:+ s +:+ "'"
|}.

(** The chunks of the deduplication example that are stored already. *)
Definition dedup_stored_chunks : list Document :=
  [mk_chunk "first" "A" 0; mk_chunk "second" "A" 0].

Definition clear_request : HttpRequest :=
  {| method := "POST"; POST := {[ "message" := "Clear" ]} |}.

Definition query_request : HttpRequest :=
  {| method := "POST"; POST := {[ "message" := "populate" ]} |}.

Definition get_request : HttpRequest :=
  {| method := "GET"; POST := ∅ |}.


(** * Properties *)

(** ** Strings: the last colon of an id *)

Section Strings.

Lemma append_empty_l (s : string) : "" +:+ s = s.
Proof. reflexivity. Qed.

Lemma append_cons_l (a : ascii) (s t : string) :
  String a s +:+ t = String a (s +:+ t).
Proof. reflexivity. Qed.

Lemma occurs_app (c : ascii) (s1 s2 : string) :
  occurs c (s1 +:+ s2) ↔ occurs c s1 ∨ occurs c s2.
Proof.
  induction s1 as [|a s1 IH]; simpl.
  - tauto.
  - rewrite IH. tauto.
Qed.

Lemma pretty_N_char_not_colon (d : N) : pretty_N_char d ≠ ":"%char.
Proof. unfold pretty_N_char. repeat case_match; discriminate. Qed.

Lemma pretty_N_go_occurs_colon (x : N) (s : string) :
  occurs ":" (pretty_N_go x s) → occurs ":" s.
Proof.
  revert s. induction (N.lt_wf_0 x) as [x _ IH]; intros s.
  destruct (decide (x = 0)%N) as [->|Hx].
  - by rewrite pretty_N_go_0.
  - rewrite pretty_N_go_step by lia.
    intros Hc. apply IH in Hc; [|apply N.div_lt; lia].
    simpl in Hc. destruct Hc as [Hc|Hc]; [|done].
    by destruct (pretty_N_char_not_colon (x `mod` 10)%N).
Qed.

Lemma pretty_N_no_colon (x : N) : ¬ occurs ":" (pretty x).
Proof.
  unfold pretty, pretty_N. case_decide.
  - simpl. intros [Hc|[]]. discriminate.
  - intros Hc. by apply pretty_N_go_occurs_colon in Hc.
Qed.

Lemma pretty_nat_no_colon (n : nat) : ¬ occurs ":" (pretty n).
Proof. apply pretty_N_no_colon. Qed.

Lemma pretty_Z_no_colon (z : Z) : ¬ occurs ":" (pretty z).
Proof.
  destruct z as [|p|p]; unfold pretty, pretty_Z.
  - simpl. intros [Hc|[]]. discriminate.
  - apply pretty_N_no_colon.
  - rewrite occurs_app. simpl. intros [[Hc|[]]|Hc]; [discriminate|].
    by apply pretty_N_no_colon in Hc.
Qed.

(** A string ends in at most one way with a colon and a colon-free rest. *)
Lemma split_last_colon (s1 s2 d1 d2 : string) :
  ¬ occurs ":" d1 → ¬ occurs ":" d2 →
  s1 +:+ ":" +:+ d1 = s2 +:+ ":" +:+ d2 →
  s1 = s2 ∧ d1 = d2.
Proof.
  intros Hd1 Hd2. revert s2.
  induction s1 as [|a s1 IH]; intros [|b s2] Heq;
    repeat (rewrite append_empty_l in Heq || rewrite append_cons_l in Heq).
  - injection Heq as ->. done.
  - injection Heq as <- ->. destruct Hd1.
    apply occurs_app. right. by left.
  - injection Heq as -> <-. destruct Hd2.
    apply occurs_app. right. by left.
  - injection Heq as -> Heq. destruct (IH s2 Heq) as [-> ->]. done.
Qed.

Lemma chunk_id_string_inj (p1 p2 : string) (n1 n2 : nat) :
  chunk_id_string p1 n1 = chunk_id_string p2 n2 → p1 = p2 ∧ n1 = n2.
Proof.
  unfold chunk_id_string. intros Heq.
  apply split_last_colon in Heq as [-> Hn]; auto using pretty_nat_no_colon.
  split; [done|]. by apply (inj pretty).
Qed.

End Strings.

(** ** calculate_chunk_ids: the ids it assigns *)

Section ChunkIds.

Lemma append_assoc (s1 s2 s3 : string) :
  (s1 +:+ s2) +:+ s3 = s1 +:+ s2 +:+ s3.
Proof.
  induction s1 as [|a s1 IH]; [done|].
  rewrite !append_cons_l. by rewrite IH.
Qed.

Lemma spec_page_identity_eq (chunk : Document) :
  spec_page_identity chunk = page_id_of chunk.
Proof. reflexivity. Qed.

Lemma spec_chunk_id_eq (chunk : Document) (n : nat) :
  spec_chunk_id chunk n = chunk_id_string (page_id_of chunk) n.
Proof.
  unfold spec_chunk_id, chunk_id_string, page_id_of.
  by rewrite !append_assoc.
Qed.

(** The counter at a position depends on the chunks up to that position only. *)
Lemma spec_chunk_index_app (l l' : list Document) (i : nat) :
  i < length l → spec_chunk_index (l ++ l') i = spec_chunk_index l i.
Proof.
  induction i as [|j IH]; intros Hi; [done|].
  cbn [spec_chunk_index].
  rewrite !lookup_app_l by lia. rewrite IH by lia. done.
Qed.

(** The loop state after a prefix: the page identity of its last chunk and
    the counter there. One more chunk moves the counter as the loop does. *)
Lemma spec_chunk_index_snoc (pre : list Document) (chunk : Document) :
  spec_chunk_index (pre ++ [chunk]) (length pre)
  = next_chunk_index (page_id_of <$> last pre) (page_id_of chunk)
      (spec_chunk_index pre (pred (length pre))).
Proof.
  induction pre as [|p pre IHpre] using rev_ind; [done|]. clear IHpre.
  rewrite last_snoc, length_app, Nat.add_1_r. cbn [pred fmap option_fmap option_map length].
  cbn [spec_chunk_index].
  rewrite lookup_app_l by (rewrite length_app; simpl; lia).
  rewrite (lookup_app_r (pre ++ [p])) by (rewrite length_app; simpl; lia).
  rewrite lookup_app_r by lia.
  rewrite length_app, Nat.sub_diag. cbn [length].
  replace (S (length pre) - (length pre + 1)) with 0 by lia. cbn [lookup list_lookup].
  rewrite spec_chunk_index_app by (rewrite length_app; simpl; lia).
  unfold next_chunk_index.
  rewrite (spec_page_identity_eq p), (spec_page_identity_eq chunk).
  destruct (decide (page_id_of chunk = page_id_of p)) as [Heq|Hne];
    destruct (decide (Some (page_id_of p) = Some (page_id_of chunk))) as [Heq'|Hne'];
    try done; exfalso; congruence.
Qed.

Lemma chunk_ids_loop_from_prefix (rest pre : list Document) :
  chunk_ids_loop (page_id_of <$> last pre) (spec_chunk_index pre (pred (length pre))) rest
  = imap (λ i chunk,
      set_metadata chunk "id"
        (PStr (spec_chunk_id chunk (spec_chunk_index (pre ++ rest) (length pre + i)))))
      rest.
Proof.
  revert pre. induction rest as [|chunk rest IH]; intros pre; [done|].
  cbn [chunk_ids_loop]. rewrite imap_cons.
  rewrite <-spec_chunk_index_snoc.
  assert (spec_chunk_index (pre ++ chunk :: rest) (length pre + 0)
          = spec_chunk_index (pre ++ [chunk]) (length pre)) as Hhere.
  { rewrite Nat.add_0_r, (cons_middle chunk pre rest), app_assoc.
    apply spec_chunk_index_app. rewrite length_app. simpl. lia. }
  f_equal.
  - by rewrite Hhere, spec_chunk_id_eq.
  - specialize (IH (pre ++ [chunk])).
    rewrite last_snoc, length_app, Nat.add_1_r in IH. cbn [pred fmap option_fmap option_map] in IH.
    rewrite IH. apply imap_ext. intros i c _. cbn.
    rewrite <-app_assoc. cbn. by rewrite Nat.add_succ_r.
Qed.

Lemma calculate_chunk_ids_imap (chunks : list Document) :
  calculate_chunk_ids chunks
  = imap (λ i chunk,
      set_metadata chunk "id" (PStr (spec_chunk_id chunk (spec_chunk_index chunks i))))
      chunks.
Proof. apply (chunk_ids_loop_from_prefix chunks []). Qed.

Lemma calculate_chunk_ids_lookup (chunks : list Document) (i : nat) :
  calculate_chunk_ids chunks !! i
  = (λ chunk, set_metadata chunk "id"
       (PStr (spec_chunk_id chunk (spec_chunk_index chunks i)))) <$> chunks !! i.
Proof. by rewrite calculate_chunk_ids_imap, list_lookup_imap. Qed.

Lemma length_calculate_chunk_ids (chunks : list Document) :
  length (calculate_chunk_ids chunks) = length chunks.
Proof. by rewrite calculate_chunk_ids_imap, length_imap. Qed.

Lemma id_of_set_metadata (chunk : Document) (v : pyval) :
  id_of (set_metadata chunk "id" v) = v.
Proof. unfold id_of, dict_get. cbn. by rewrite lookup_insert_eq. Qed.

Lemma calculate_chunk_ids_id_lookup (chunks : list Document) (i : nat) :
  (id_of <$> calculate_chunk_ids chunks) !! i
  = (λ chunk, PStr (spec_chunk_id chunk (spec_chunk_index chunks i))) <$> chunks !! i.
Proof.
  rewrite list_lookup_fmap, calculate_chunk_ids_lookup.
  destruct (chunks !! i); [|done]. cbn. by rewrite id_of_set_metadata.
Qed.

(** C2. For every input sequence, [calculate_chunk_ids] gives the chunk at
    position [i] the id ["source:page:counter"], where the counter is the
    running counter of the stated algorithm: 0 at the first chunk and where
    the page identity [source:page] differs from the previous chunk's, one
    more than the previous counter where it is the same. Nothing else of the
    chunk changes. *)
Theorem calculate_chunk_ids_follows_algorithm (chunks : list Document) :
  calculate_chunk_ids chunks
  = imap (λ i chunk,
      set_metadata chunk "id" (PStr (spec_chunk_id chunk (spec_chunk_index chunks i))))
      chunks
  ∧ id_of <$> calculate_chunk_ids chunks
    = imap (λ i chunk, PStr (spec_chunk_id chunk (spec_chunk_index chunks i))) chunks.
Proof.
  split; [apply calculate_chunk_ids_imap|].
  apply list_eq. intros i.
  by rewrite calculate_chunk_ids_id_lookup, list_lookup_imap.
Qed.

End ChunkIds.

(** ** calculate_chunk_ids: ids are distinct in page-grouped order *)

Section Uniqueness.

(** Along a run of chunks of one page identity the counter counts up. *)
Lemma spec_chunk_index_run (chunks : list Document) (page : string) (i d : nat) :
  (∀ m, i ≤ m ≤ i + d → ∃ chunk, chunks !! m = Some chunk ∧ page_id_of chunk = page) →
  spec_chunk_index chunks (i + d) = spec_chunk_index chunks i + d.
Proof.
  induction d as [|d IH]; intros Hrun.
  - by rewrite !Nat.add_0_r.
  - rewrite Nat.add_succ_r. cbn [spec_chunk_index].
    destruct (Hrun (i + d)) as (previous & -> & Hprevious); [lia|].
    destruct (Hrun (S (i + d))) as (incoming & -> & Hincoming); [lia|].
    rewrite (spec_page_identity_eq incoming), (spec_page_identity_eq previous).
    rewrite decide_True by congruence.
    rewrite IH; [lia|]. intros m Hm. apply Hrun. lia.
Qed.

(** In page-grouped order two chunks of one page identity bound a run. *)
Lemma page_grouped_run (chunks : list Document) (i k : nat) (ci ck : Document) :
  page_grouped chunks →
  i < k → chunks !! i = Some ci → chunks !! k = Some ck →
  page_id_of ci = page_id_of ck →
  ∀ m, i ≤ m ≤ i + (k - i) →
    ∃ chunk, chunks !! m = Some chunk ∧ page_id_of chunk = page_id_of ci.
Proof.
  intros Hgrouped Hik Hi Hk Hpage m Hm.
  destruct (decide (m = i)) as [->|]; [by eauto|].
  destruct (decide (m = k)) as [->|]; [by eauto|].
  destruct (lookup_lt_is_Some_2 chunks m) as [cm Hcm].
  { apply lookup_lt_Some in Hk. lia. }
  exists cm. split; [done|].
  apply (Hgrouped i m k ci cm ck); auto with lia.
Qed.

Lemma calculate_chunk_ids_NoDup (chunks : list Document) :
  page_grouped chunks → NoDup (id_of <$> calculate_chunk_ids chunks).
Proof.
  intros Hgrouped. apply NoDup_alt.
  cut (∀ i k x, i < k →
         (id_of <$> calculate_chunk_ids chunks) !! i = Some x →
         (id_of <$> calculate_chunk_ids chunks) !! k = Some x → False).
  { intros Hlt i k x Hi Hk.
    destruct (Nat.lt_trichotomy i k) as [?|[?|?]]; [|done|]; exfalso; eauto. }
  intros i k x Hik.
  rewrite !calculate_chunk_ids_id_lookup.
  destruct (chunks !! i) as [ci|] eqn:Hi; [|done].
  destruct (chunks !! k) as [ck|] eqn:Hk; [|done].
  cbn. intros [= <-] [= Heq]. rewrite !spec_chunk_id_eq in Heq.
  apply chunk_id_string_inj in Heq as [Hpage Hindex].
  assert (spec_chunk_index chunks k = spec_chunk_index chunks i + (k - i)) as Hrun.
  { replace k with (i + (k - i)) at 1 by lia.
    apply (spec_chunk_index_run chunks (page_id_of ci)).
    by apply (page_grouped_run chunks i k ci ck). }
  lia.
Qed.

(** The check of page-grouped order is sound. *)
Lemma reappears_false (x : string) (rest : list string) (j k : nat) :
  reappears x rest = false → j < k → rest !! k = Some x → rest !! j = Some x.
Proof.
  revert j k. induction rest as [|y rest IH]; intros j k Hre Hjk Hk; [done|].
  cbn [reappears] in Hre. destruct (decide (y = x)) as [->|Hy].
  - destruct j as [|j]; [done|]. destruct k as [|k]; [lia|].
    cbn in *. apply (IH j k); auto with lia.
  - apply bool_decide_eq_false in Hre. destruct k as [|k].
    + cbn in Hk. congruence.
    + cbn in Hk. destruct Hre. by apply list_elem_of_lookup_2 in Hk.
Qed.

Lemma contiguous_page_grouped (chunks : list Document) :
  contiguous (page_id_of <$> chunks) = true → page_grouped chunks.
Proof.
  induction chunks as [|c chunks IH]; intros Hc i j k ci cj ck Hijk Hi Hj Hk Hpage.
  { done. }
  cbn [fmap list_fmap contiguous] in Hc.
  apply andb_true_iff in Hc as [Hre Hrest]. apply negb_true_iff in Hre.
  destruct j as [|j]; [lia|]. destruct k as [|k]; [lia|].
  change (chunks !! j = Some cj) in Hj. change (chunks !! k = Some ck) in Hk.
  destruct i as [|i].
  - injection Hi as <-.
    assert ((page_id_of <$> chunks) !! j = Some (page_id_of c)) as Hj'.
    { apply (reappears_false _ _ j k); [done|lia|].
      by rewrite list_lookup_fmap, Hk, Hpage. }
    rewrite list_lookup_fmap, Hj in Hj'. by injection Hj'.
  - change (chunks !! i = Some ci) in Hi.
    apply (IH Hrest i j k ci cj ck); auto with lia.
Qed.

(** For chunks whose source is a string and whose page is a number, the page
    identity is the pair of the two. *)
Lemma page_id_of_well_typed (c1 c2 : Document) :
  well_typed c1 → well_typed c2 →
  page_id_of c1 = page_id_of c2 ↔
  (metadata c1 !! "source" = metadata c2 !! "source"
   ∧ metadata c1 !! "page" = metadata c2 !! "page").
Proof.
  intros [[s1 Hs1] [p1 Hp1]] [[s2 Hs2] [p2 Hp2]].
  unfold page_id_of, dict_get. rewrite Hs1, Hs2, Hp1, Hp2. cbn. split.
  - intros Heq. apply split_last_colon in Heq as [-> Hp];
      auto using pretty_Z_no_colon.
    by apply (inj pretty) in Hp as ->.
  - by intros [[= ->] [= ->]].
Qed.

(** C5. For every chunk sequence in page-grouped order, that is, where no
    chunk of another page identity [source:page] stands between two chunks of
    one page identity, the ids that [calculate_chunk_ids] assigns are
    pairwise distinct over the whole sequence. *)
Theorem calculate_chunk_ids_unique (chunks : list Document) :
  page_grouped chunks →
  NoDup (id_of <$> calculate_chunk_ids chunks)
  ∧ ∀ i k ci ck,
      calculate_chunk_ids chunks !! i = Some ci →
      calculate_chunk_ids chunks !! k = Some ck →
      id_of ci = id_of ck → i = k.
Proof.
  intros Hgrouped.
  pose proof (calculate_chunk_ids_NoDup chunks Hgrouped) as Hnodup.
  split; [done|]. intros i k ci ck Hi Hk Hid.
  apply (proj1 (NoDup_alt _) Hnodup i k (id_of ci));
    rewrite list_lookup_fmap.
  - by rewrite Hi.
  - by rewrite Hk, Hid.
Qed.

(** With sources that are strings and pages that are numbers, it is enough
    that the chunks of one (source, page) pair are contiguous. *)
Lemma calculate_chunk_ids_unique_by_source_and_page (chunks : list Document) :
  Forall well_typed chunks →
  (∀ i j k ci cj ck,
     i < j < k →
     chunks !! i = Some ci → chunks !! j = Some cj → chunks !! k = Some ck →
     metadata ci !! "source" = metadata ck !! "source" →
     metadata ci !! "page" = metadata ck !! "page" →
     metadata cj !! "source" = metadata ci !! "source"
     ∧ metadata cj !! "page" = metadata ci !! "page") →
  NoDup (id_of <$> calculate_chunk_ids chunks).
Proof.
  intros Htyped Hpairs. apply calculate_chunk_ids_NoDup.
  intros i j k ci cj ck Hijk Hi Hj Hk Hpage.
  assert (well_typed ci ∧ well_typed cj ∧ well_typed ck) as (Hti & Htj & Htk).
  { rewrite Forall_forall in Htyped.
    repeat split; apply Htyped; by eapply list_elem_of_lookup_2. }
  apply page_id_of_well_typed in Hpage as [Hs Hp]; [|done..].
  apply page_id_of_well_typed; [done..|].
  by apply (Hpairs i j k ci cj ck).
Qed.

(** Out of page-grouped order two chunks get one id. *)
Example calculate_chunk_ids_interleaved :
  ¬ page_grouped interleaved_chunks
  ∧ ¬ NoDup (id_of <$> calculate_chunk_ids interleaved_chunks).
Proof.
  split.
  - intros Hgrouped.
    by pose proof (Hgrouped 0 1 2 _ _ _ ltac:(lia) eq_refl eq_refl eq_refl eq_refl).
  - intros Hnodup.
    assert (0 = 2) as Hsame; [|done].
    apply (proj1 (NoDup_alt _) Hnodup 0 2 (PStr "doc.pdf:0:0"));
      vm_compute; reflexivity.
Qed.

End Uniqueness.

(** ** calculate_chunk_ids: what it writes *)

Section InPlaceFrame.

Lemma same_but_id_refl (d : Document) : same_but_id d d.
Proof. by split. Qed.

Lemma same_but_id_trans (d1 d2 d3 : Document) :
  same_but_id d1 d2 → same_but_id d2 d3 → same_but_id d1 d3.
Proof.
  intros [Ht1 Hm1] [Ht2 Hm2]. split; [congruence|].
  intros key Hkey. rewrite Hm2, Hm1; done.
Qed.

Lemma same_but_id_set_metadata (d : Document) (v : pyval) :
  same_but_id d (set_metadata d "id" v).
Proof.
  split; [done|]. intros key Hkey. cbn. by rewrite lookup_insert_ne.
Qed.

Lemma page_id_of_same_but_id (d d' : Document) :
  same_but_id d d' → page_id_of d' = page_id_of d.
Proof.
  intros [_ Hm]. unfold page_id_of, dict_get. by rewrite !Hm.
Qed.

(** What the loop does to the store of objects, from any loop state. *)
Lemma inplace_loop_frame (chunks : list positive) (last_page_id : option string)
    (current_chunk_index : nat) (objs : gmap positive Document) :
  (∀ r, r ∈ chunks → is_Some (objs !! r)) →
  ∃ objs',
    InPlace.chunk_ids_loop last_page_id current_chunk_index chunks objs = Some objs'
    ∧ ∀ r,
        (objs !! r = None → objs' !! r = None)
        ∧ (∀ d, objs !! r = Some d →
             ∃ d', objs' !! r = Some d'
                   ∧ same_but_id d d'
                   ∧ (r ∉ chunks → d' = d)
                   ∧ (r ∈ chunks → ∃ s, metadata d' !! "id" = Some (PStr s))).
Proof.
  revert last_page_id current_chunk_index objs.
  induction chunks as [|r0 rest IH]; intros last_page_id current_chunk_index objs Halloc.
  { exists objs. split; [done|]. intros r. split; [done|].
    intros d Hd. exists d. split_and!; [done|apply same_but_id_refl|done|].
    by intros ?%elem_of_nil. }
  cbn [InPlace.chunk_ids_loop].
  destruct (Halloc r0) as [chunk Hchunk]; [by left|]. rewrite Hchunk.
  set (index' := next_chunk_index last_page_id (page_id_of chunk) current_chunk_index).
  set (chunk' := set_metadata chunk "id" (PStr (chunk_id_string (page_id_of chunk) index'))).
  destruct (IH (Some (page_id_of chunk)) index' (<[r0 := chunk']> objs))
    as (objs' & Hloop & Hframe).
  { intros r Hr. destruct (decide (r = r0)) as [->|Hne].
    - by rewrite lookup_insert_eq.
    - rewrite lookup_insert_ne by done. apply Halloc. by right. }
  exists objs'. split; [done|]. intros r.
  destruct (Hframe r) as [Hnone Hsome].
  destruct (decide (r = r0)) as [->|Hne].
  - split; [congruence|]. intros d Hd. assert (d = chunk) as -> by congruence.
    destruct (Hsome chunk') as (d' & Hd' & Hsame & Hout & Hin).
    { by rewrite lookup_insert_eq. }
    exists d'. split_and!; [done| |by intros []; left|].
    + eapply same_but_id_trans; [apply same_but_id_set_metadata|done].
    + intros _. destruct (decide (r0 ∈ rest)) as [Hr0|Hr0]; [by apply Hin|].
      rewrite (Hout Hr0). exists (chunk_id_string (page_id_of chunk) index').
      cbn. by rewrite lookup_insert_eq.
  - rewrite lookup_insert_ne in Hnone, Hsome by done. split; [done|].
    intros d Hd. destruct (Hsome d Hd) as (d' & Hd' & Hsame & Hout & Hin).
    exists d'. split_and!; [done|done| |].
    + intros Hr. apply Hout. intros ?. apply Hr. by right.
    + intros Hr. apply Hin. apply elem_of_cons in Hr as [?|?]; done.
Qed.

(** C10. [calculate_chunk_ids] works in place and returns the list it was
    given: on every list of references to chunk objects it returns that list,
    so length and order are the argument's, and in the store of objects it
    leaves every object's text and every metadata key other than ["id"] as
    they were, writes the ["id"] key of the objects the list refers to, and
    leaves every other object as it was. *)
Theorem calculate_chunk_ids_in_place (chunks : list positive)
    (objs : gmap positive Document) :
  (∀ r, r ∈ chunks → is_Some (objs !! r)) →
  ∃ objs',
    InPlace.calculate_chunk_ids chunks objs = Some (chunks, objs')
    ∧ ∀ r,
        (objs !! r = None → objs' !! r = None)
        ∧ (∀ d, objs !! r = Some d →
             ∃ d', objs' !! r = Some d'
                   ∧ page_content d' = page_content d
                   ∧ (∀ key, key ≠ "id" → metadata d' !! key = metadata d !! key)
                   ∧ (r ∉ chunks → d' = d)
                   ∧ (r ∈ chunks → ∃ s, metadata d' !! "id" = Some (PStr s))).
Proof.
  intros Halloc.
  destruct (inplace_loop_frame chunks None 0 objs Halloc) as (objs' & Hloop & Hframe).
  exists objs'. unfold InPlace.calculate_chunk_ids. rewrite Hloop. split; [done|].
  intros r. destruct (Hframe r) as [Hnone Hsome]. split; [done|].
  intros d Hd. destruct (Hsome d Hd) as (d' & Hd' & [Htext Hkeys] & Hout & Hin).
  exists d'. by split_and!.
Qed.

(** The same on values: the list that [calculate_chunk_ids] returns has the
    length of its argument, and position by position the same text and the
    same metadata but for the ["id"] key. *)
Lemma calculate_chunk_ids_frame (chunks : list Document) (i : nat) (d : Document) :
  chunks !! i = Some d →
  ∃ d', calculate_chunk_ids chunks !! i = Some d'
        ∧ same_but_id d d'
        ∧ ∃ s, metadata d' !! "id" = Some (PStr s).
Proof.
  intros Hd. rewrite calculate_chunk_ids_lookup, Hd. cbn.
  eexists. split_and!; [done|apply same_but_id_set_metadata|].
  eexists. cbn. by rewrite lookup_insert_eq.
Qed.

Lemma lookup_insert_fresh_Forall2 (objs : gmap positive Document) (r0 : positive)
    (v : Document) (rest : list positive) (ds : list Document) :
  r0 ∉ rest →
  Forall2 (λ r d, objs !! r = Some d) rest ds →
  Forall2 (λ r d, <[r0 := v]> objs !! r = Some d) rest ds.
Proof.
  intros Hr0 Hds. induction Hds as [|r d rest ds Hd _ IH]; constructor.
  - rewrite lookup_insert_ne; [done|]. intros ->. apply Hr0. by left.
  - apply IH. intros ?. apply Hr0. by right.
Qed.

(** When the references are pairwise distinct, the loop on the store of
    objects and the loop on the list of documents agree. *)
Lemma inplace_loop_refines (chunks : list positive) (ds : list Document)
    (last_page_id : option string) (current_chunk_index : nat)
    (objs : gmap positive Document) :
  NoDup chunks →
  Forall2 (λ r d, objs !! r = Some d) chunks ds →
  ∃ objs',
    InPlace.chunk_ids_loop last_page_id current_chunk_index chunks objs = Some objs'
    ∧ Forall2 (λ r d, objs' !! r = Some d) chunks
        (chunk_ids_loop last_page_id current_chunk_index ds)
    ∧ ∀ r, r ∉ chunks → objs' !! r = objs !! r.
Proof.
  intros Hnodup Hds. revert last_page_id current_chunk_index objs Hnodup Hds.
  revert ds. induction chunks as [|r0 rest IH];
    intros ds last_page_id current_chunk_index objs Hnodup Hds.
  { apply Forall2_nil_inv_l in Hds as ->. exists objs. by split_and!. }
  apply Forall2_cons_inv_l in Hds as (chunk & ds' & Hchunk & Hrest & ->).
  apply NoDup_cons in Hnodup as [Hr0 Hnodup].
  cbn [InPlace.chunk_ids_loop chunk_ids_loop]. rewrite Hchunk.
  set (index' := next_chunk_index last_page_id (page_id_of chunk) current_chunk_index).
  set (chunk' := set_metadata chunk "id" (PStr (chunk_id_string (page_id_of chunk) index'))).
  destruct (IH ds' (Some (page_id_of chunk)) index' (<[r0 := chunk']> objs) Hnodup)
    as (objs' & Hloop & Hrefs & Hframe).
  { by apply lookup_insert_fresh_Forall2. }
  exists objs'. split_and!; [done| |].
  - constructor; [|done]. by rewrite (Hframe r0 Hr0), lookup_insert_eq.
  - intros r Hr. rewrite Hframe by (intros ?; apply Hr; by right).
    rewrite lookup_insert_ne; [done|]. intros ->. apply Hr. by left.
Qed.

Lemma inplace_calculate_chunk_ids_refines (chunks : list positive) (ds : list Document)
    (objs : gmap positive Document) :
  NoDup chunks →
  InPlace.deref objs chunks = Some ds →
  ∃ objs',
    InPlace.calculate_chunk_ids chunks objs = Some (chunks, objs')
    ∧ InPlace.deref objs' chunks = Some (calculate_chunk_ids ds).
Proof.
  intros Hnodup Hds. apply mapM_Some in Hds.
  destruct (inplace_loop_refines chunks ds None 0 objs Hnodup Hds)
    as (objs' & Hloop & Hrefs & _).
  exists objs'. unfold InPlace.calculate_chunk_ids. rewrite Hloop.
  split; [done|]. by apply mapM_Some.
Qed.

(** So for pairwise distinct chunk objects in page-grouped order the ids
    that the objects carry after the call are pairwise distinct. *)
Lemma inplace_calculate_chunk_ids_unique (chunks : list positive) (ds : list Document)
    (objs : gmap positive Document) :
  NoDup chunks →
  InPlace.deref objs chunks = Some ds →
  page_grouped ds →
  ∃ objs',
    InPlace.calculate_chunk_ids chunks objs = Some (chunks, objs')
    ∧ NoDup ((λ r, id_of <$> objs' !! r) <$> chunks).
Proof.
  intros Hnodup Hds Hgrouped.
  destruct (inplace_calculate_chunk_ids_refines chunks ds objs Hnodup Hds)
    as (objs' & Hrun & Hds').
  exists objs'. split; [done|].
  assert ((λ r, id_of <$> objs' !! r) <$> chunks
          = Some <$> (id_of <$> calculate_chunk_ids ds)) as ->.
  { apply mapM_Some in Hds'. clear -Hds'.
    induction Hds' as [|r d rest ds' Hd _ IH]; [done|].
    cbn. by rewrite Hd, IH. }
  apply (NoDup_fmap_2 Some). by apply calculate_chunk_ids_NoDup.
Qed.

End InPlaceFrame.

(** ** Running statements *)

Section Running.
Context {S Score : Type} `{!VectorStore S Score} `{!Services}.

Lemma bind_Ok {A B : Type} (m : M S A) (f : A → M S B) (w w' : world S) (a : A) :
  m w = (Ok a, w') → (m ≫= f) w = f a w'.
Proof. intros Hm. unfold mbind, M_bind. by rewrite Hm. Qed.

Lemma bind_Raise {A B : Type} (m : M S A) (f : A → M S B) (w w' : world S) (e : exn) :
  m w = (Raise e, w') → (m ≫= f) w = (Raise e, w').
Proof. intros Hm. unfold mbind, M_bind. by rewrite Hm. Qed.

Lemma collection_opened (path : string) (w : world S) :
  collection path (opened path w) = collection path w.
Proof.
  unfold collection, opened. destruct (fs w !! path) eqn:Hpath.
  - by rewrite Hpath.
  - cbn. by rewrite lookup_insert_eq.
Qed.

Lemma opened_present (path : string) (w : world S) :
  is_Some (fs w !! path) → opened path w = w.
Proof. intros [s Hs]. unfold opened. by rewrite Hs. Qed.

Lemma opened_is_Some (path : string) (w : world S) :
  is_Some (fs (opened path w) !! path).
Proof.
  unfold opened. destruct (fs w !! path) eqn:Hpath.
  - by rewrite Hpath.
  - cbn. by rewrite lookup_insert_eq.
Qed.

Lemma stdout_opened (path : string) (w : world S) :
  stdout (opened path w) = stdout w.
Proof. unfold opened. by destruct (fs w !! path). Qed.

(** Every chunk that [calculate_chunk_ids] returns carries an id. *)
Lemma calculate_chunk_ids_has_id (chunks : list Document) (chunk : Document) :
  chunk ∈ calculate_chunk_ids chunks →
  ∃ s, metadata chunk !! "id" = Some (PStr s).
Proof.
  intros (i & Hi)%list_elem_of_lookup_1.
  rewrite calculate_chunk_ids_lookup in Hi.
  destruct (chunks !! i) as [c|]; [|done]. injection Hi as <-.
  eexists. cbn. by rewrite lookup_insert_eq.
Qed.

Lemma dict_getitem_id (chunk : Document) :
  is_Some (metadata chunk !! "id") →
  dict_getitem (metadata chunk) "id" = Ok (id_of chunk).
Proof.
  intros [v Hv]. unfold dict_getitem, id_of, dict_get. by rewrite Hv.
Qed.

(** On chunks that carry an id the selection loop never raises: it is the
    filter on the ids that are not stored, in the order of the chunks. *)
Lemma select_new_chunks_filter (existing_ids : gset pyval)
    (chunks_with_ids new_chunks : list Document) :
  Forall (λ chunk, is_Some (metadata chunk !! "id")) chunks_with_ids →
  select_new_chunks existing_ids chunks_with_ids new_chunks
  = Ok (new_chunks ++ new_chunks_among existing_ids chunks_with_ids).
Proof.
  intros Hids. revert new_chunks.
  induction Hids as [|chunk rest Hid _ IH]; intros new_chunks.
  { by rewrite app_nil_r. }
  cbn [select_new_chunks]. rewrite (dict_getitem_id chunk Hid).
  unfold new_chunks_among. rewrite filter_cons. cbn.
  destruct (decide (id_of chunk ∉ existing_ids)).
  - rewrite IH. by rewrite <-app_assoc.
  - apply IH.
Qed.

Lemma chunk_ids_of_fmap (new_chunks : list Document) :
  Forall (λ chunk, is_Some (metadata chunk !! "id")) new_chunks →
  chunk_ids_of new_chunks = Ok (id_of <$> new_chunks).
Proof.
  induction 1 as [|chunk rest Hid _ IH]; [done|].
  cbn [chunk_ids_of]. rewrite (dict_getitem_id chunk Hid). cbn. by rewrite IH.
Qed.

Lemma calculate_chunk_ids_Forall_id (chunks : list Document) :
  Forall (λ chunk, is_Some (metadata chunk !! "id")) (calculate_chunk_ids chunks).
Proof.
  apply Forall_forall. intros chunk Hchunk.
  destruct (calculate_chunk_ids_has_id chunks chunk Hchunk) as [s Hs]. eauto.
Qed.

Lemma new_chunks_among_Forall_id (existing_ids : gset pyval) (chunks : list Document) :
  Forall (λ chunk, is_Some (metadata chunk !! "id"))
    (new_chunks_among existing_ids (calculate_chunk_ids chunks)).
Proof.
  apply Forall_forall. intros chunk [_ Hchunk]%list_elem_of_filter.
  destruct (calculate_chunk_ids_has_id chunks chunk Hchunk) as [s Hs]. eauto.
Qed.

(** [add_to_chroma], statement by statement. *)
Lemma add_to_chroma_run (chunks : list Document) (w : world S) :
  let s := collection CHROMA_PATH w in
  let existing_ids : gset pyval := list_to_set (store_ids s) in
  let new_chunks := new_chunks_among existing_ids (calculate_chunk_ids chunks) in
  let counted :=
    stdout w ++ ["Number of existing documents in DB: " +:+ pretty (size existing_ids)] in
  add_to_chroma chunks w =
    if decide (length new_chunks ≠ 0)
    then
      let adding :=
        counted ++ ["👉 Adding new documents: " +:+ pretty (length new_chunks)] in
      let '(r, s') := store_add_documents new_chunks (id_of <$> new_chunks) s in
      (r, {| fs := <[CHROMA_PATH := s']> (fs (opened CHROMA_PATH w));
             stdout := adding |})
    else
      (Ok (), {| fs := fs (opened CHROMA_PATH w);
                 stdout := counted ++ ["✅ No new documents to add"] |}).
Proof.
  intros s existing_ids new_chunks counted.
  unfold add_to_chroma.
  rewrite (bind_Ok _ _ w (opened CHROMA_PATH w) CHROMA_PATH) by done.
  erewrite bind_Ok by done.
  erewrite bind_Ok by done.
  unfold lift at 1.
  erewrite bind_Ok; cycle 1.
  { rewrite select_new_chunks_filter by apply calculate_chunk_ids_Forall_id. done. }
  rewrite collection_opened, stdout_opened. cbn [app fs stdout].
  fold s existing_ids new_chunks counted.
  destruct (decide (length new_chunks ≠ 0)); [|done].
  erewrite bind_Ok by done.
  unfold lift. erewrite bind_Ok; cycle 1.
  { rewrite chunk_ids_of_fmap by apply new_chunks_among_Forall_id. done. }
  unfold db_add_documents, collection. cbn [fs stdout].
  fold (collection CHROMA_PATH (opened CHROMA_PATH w)).
  rewrite collection_opened. fold s.
  by destruct (store_add_documents new_chunks (id_of <$> new_chunks) s) as [r s'].
Qed.

End Running.

(** ** add_to_chroma: only what is new is added, and once *)

Section Ingestion.
Context {S Score : Type} `{!VectorStore S Score} `{!Services}.
Context `{!VectorStoreLaws S Score}.

Lemma collection_insert (w : world S) (s' : S) (out : list string) :
  collection CHROMA_PATH {| fs := <[CHROMA_PATH := s']> (fs w); stdout := out |} = s'.
Proof. unfold collection. cbn. by rewrite lookup_insert_eq. Qed.

Lemma collection_stdout (w : world S) (out : list string) :
  collection CHROMA_PATH {| fs := fs w; stdout := out |} = collection CHROMA_PATH w.
Proof. done. Qed.

Lemma not_stored_is_None (s : S) (k : pyval) :
  k ∉ store_ids s → store_entry s k = None.
Proof.
  intros Hk. destruct (store_entry s k) eqn:Hentry; [|done].
  destruct Hk. apply store_ids_entry. by rewrite Hentry.
Qed.

Lemma elem_of_new_chunks_ids (existing_ids : gset pyval) (chunks : list Document)
    (k : pyval) :
  k ∈ id_of <$> new_chunks_among existing_ids chunks
  ↔ k ∈ id_of <$> chunks ∧ k ∉ existing_ids.
Proof.
  unfold new_chunks_among. rewrite !list_elem_of_fmap. split.
  - intros (c & -> & [Hnew Hc]%list_elem_of_filter). eauto.
  - intros [(c & -> & Hc) Hnew]. exists c. split; [done|].
    by apply list_elem_of_filter.
Qed.

(** What a run of [add_to_chroma] that returns leaves in the collection. *)
Lemma add_to_chroma_Ok (chunks : list Document) (w w' : world S) :
  add_to_chroma chunks w = (Ok (), w') →
  let s := collection CHROMA_PATH w in
  let s' := collection CHROMA_PATH w' in
  let new_chunks :=
    new_chunks_among (list_to_set (store_ids s)) (calculate_chunk_ids chunks) in
  (new_chunks = [] ∧ s' = s)
  ∨ (new_chunks ≠ []
     ∧ store_add_documents new_chunks (id_of <$> new_chunks) s = (Ok (), s')).
Proof.
  intros Hrun s s' new_chunks. rewrite add_to_chroma_run in Hrun. cbn zeta in Hrun.
  fold s in Hrun. fold new_chunks in Hrun.
  destruct (decide (length new_chunks ≠ 0)) as [Hnew|Hnew].
  - right. split; [by intros Hnil; rewrite Hnil in Hnew|].
    destruct (store_add_documents new_chunks (id_of <$> new_chunks) s) as [r s1].
    injection Hrun as -> <-. subst s'. by rewrite collection_insert.
  - left. split; [apply length_zero_iff_nil; lia|].
    injection Hrun as <-. subst s'. rewrite collection_stdout.
    apply collection_opened.
Qed.

Lemma add_to_chroma_Raise (chunks : list Document) (w w' : world S) (e : exn) :
  add_to_chroma chunks w = (Raise e, w') →
  let s := collection CHROMA_PATH w in
  let new_chunks :=
    new_chunks_among (list_to_set (store_ids s)) (calculate_chunk_ids chunks) in
  store_add_documents new_chunks (id_of <$> new_chunks) s
  = (Raise e, collection CHROMA_PATH w').
Proof.
  intros Hrun s new_chunks. rewrite add_to_chroma_run in Hrun. cbn zeta in Hrun.
  fold s in Hrun. fold new_chunks in Hrun.
  destruct (decide _); [|done].
  destruct (store_add_documents new_chunks (id_of <$> new_chunks) s) as [r s1].
  injection Hrun as -> <-. by rewrite collection_insert.
Qed.

(** C1. For every chunk sequence and every prior state of the index,
    [add_to_chroma] hands to the collection's [add_documents] exactly the
    chunks (with their ids) whose id is not among the stored ids, in their
    order, and calls nothing when there is none. Every entry that was stored
    is left as it was. It raises only when [add_documents] does; when it
    returns, an id that was not stored is stored exactly when it is the id
    of a chunk of the sequence, and what is stored under it is a chunk of
    the sequence with that id. *)
Theorem add_to_chroma_adds_new_chunks_only (chunks : list Document) (w : world S) :
  ∃ r w',
    add_to_chroma chunks w = (r, w')
    ∧ let s := collection CHROMA_PATH w in
      let s' := collection CHROMA_PATH w' in
      let new_chunks :=
        filter (λ chunk, id_of chunk ∉ store_ids s) (calculate_chunk_ids chunks) in
      (∀ k, k ∈ store_ids s → store_entry s' k = store_entry s k)
      ∧ match r with
        | Ok _ =>
            ((new_chunks = [] ∧ s' = s)
             ∨ (new_chunks ≠ []
                ∧ store_add_documents new_chunks (id_of <$> new_chunks) s = (Ok (), s')))
            ∧ (∀ k, k ∉ store_ids s →
                 (is_Some (store_entry s' k) ↔ k ∈ id_of <$> calculate_chunk_ids chunks))
            ∧ (∀ k d, k ∉ store_ids s → store_entry s' k = Some d →
                 d ∈ calculate_chunk_ids chunks ∧ id_of d = k)
        | Raise e =>
            store_add_documents new_chunks (id_of <$> new_chunks) s = (Raise e, s')
        end.
Proof.
  assert (∀ s : S,
    new_chunks_among (list_to_set (store_ids s)) (calculate_chunk_ids chunks)
    = filter (λ chunk, id_of chunk ∉ store_ids s) (calculate_chunk_ids chunks))
    as Hfilter.
  { intros s. unfold new_chunks_among. apply list_filter_iff.
    intros chunk. by rewrite elem_of_list_to_set. }
  set (s := collection CHROMA_PATH w).
  assert (∀ k, k ∈ id_of <$> new_chunks_among (list_to_set (store_ids s))
                               (calculate_chunk_ids chunks)
               ↔ k ∈ id_of <$> calculate_chunk_ids chunks ∧ k ∉ store_ids s) as Hnew.
  { intros k. rewrite elem_of_new_chunks_ids. by rewrite not_elem_of_list_to_set. }
  destruct (add_to_chroma chunks w) as [[[]|e] w'] eqn:Hrun;
    eexists _, w'; (split; [reflexivity|]); cbn zeta; fold s;
    rewrite <-(Hfilter s);
    set (s' := collection CHROMA_PATH w');
    set (new_chunks :=
      new_chunks_among (list_to_set (store_ids s)) (calculate_chunk_ids chunks)) in *.
  2:{ apply add_to_chroma_Raise in Hrun. cbn zeta in Hrun.
      fold s in Hrun. fold s' in Hrun. fold new_chunks in Hrun. split; [|done].
      intros k Hk. eapply store_add_frame; [done|]. rewrite Hnew. tauto. }
  pose proof (add_to_chroma_Ok chunks w w' Hrun) as Hok. cbn zeta in Hok.
  fold s in Hok. fold s' in Hok. fold new_chunks in Hok.
  destruct Hok as [[Hnil Hs']|[Hcons Hadd]].
  - rewrite Hs'. split_and!; [done|by left| |].
    + intros k Hk. split.
      * intros Hsome. destruct Hk. by apply store_ids_entry.
      * intros Hin. assert (k ∈ id_of <$> new_chunks) as Hk' by by apply Hnew.
        rewrite Hnil in Hk'. by apply elem_of_nil in Hk'.
    + intros k d Hk Hd. destruct Hk. apply store_ids_entry. by rewrite Hd.
  - split_and!.
    + intros k Hk. eapply store_add_frame; [done|]. rewrite Hnew. tauto.
    + by right.
    + intros k Hk. split.
      * intros Hsome. destruct (decide (k ∈ id_of <$> new_chunks)) as [Hin|Hout].
        { by apply Hnew in Hin as [? _]. }
        rewrite (store_add_frame _ _ _ _ _ k Hadd Hout) in Hsome.
        destruct Hk. by apply store_ids_entry.
      * intros Hin. eapply store_add_present; [done|by rewrite length_fmap|].
        by apply Hnew.
    + intros k d Hk Hd.
      destruct (store_add_entry _ _ _ _ k d Hadd) as (n & Hn & Hdn);
        [by rewrite length_fmap|by apply not_stored_is_None|done|].
      rewrite list_lookup_fmap, Hdn in Hn. injection Hn as Hid.
      split; [|done]. apply list_elem_of_lookup_2 in Hdn.
      by apply list_elem_of_filter in Hdn as [_ ?].
Qed.

Lemma page_id_of_set_id (chunk : Document) (v : pyval) :
  page_id_of (set_metadata chunk "id" v) = page_id_of chunk.
Proof. apply page_id_of_same_but_id, same_but_id_set_metadata. Qed.

Lemma set_metadata_twice (chunk : Document) (key : string) (v v' : pyval) :
  set_metadata (set_metadata chunk key v) key v' = set_metadata chunk key v'.
Proof. unfold set_metadata. cbn. by rewrite insert_insert_eq. Qed.

(** Chunks that already carry their ids get the same ids again. *)
Lemma chunk_ids_loop_idempotent (chunks : list Document) (last_page_id : option string)
    (current_chunk_index : nat) :
  chunk_ids_loop last_page_id current_chunk_index
    (chunk_ids_loop last_page_id current_chunk_index chunks)
  = chunk_ids_loop last_page_id current_chunk_index chunks.
Proof.
  revert last_page_id current_chunk_index.
  induction chunks as [|chunk rest IH]; intros last_page_id current_chunk_index; [done|].
  cbn [chunk_ids_loop]. rewrite page_id_of_set_id, set_metadata_twice. by rewrite IH.
Qed.

Lemma calculate_chunk_ids_idempotent (chunks : list Document) :
  calculate_chunk_ids (calculate_chunk_ids chunks) = calculate_chunk_ids chunks.
Proof. apply chunk_ids_loop_idempotent. Qed.

Lemma add_to_chroma_leaves_index (chunks : list Document) (w w' : world S)
    (r : result unit) :
  add_to_chroma chunks w = (r, w') → opened CHROMA_PATH w' = w'.
Proof.
  intros Hrun. apply opened_present.
  rewrite add_to_chroma_run in Hrun. cbn zeta in Hrun.
  destruct (decide _).
  - destruct (store_add_documents _ _ _) as [r' s']. injection Hrun as _ <-. cbn.
    by rewrite lookup_insert_eq.
  - injection Hrun as _ <-. cbn. apply opened_is_Some.
Qed.

(** After a run that returns, the id of every chunk of the sequence is
    stored. *)
Lemma add_to_chroma_stores_ids (chunks : list Document) (w w' : world S) (k : pyval) :
  add_to_chroma chunks w = (Ok (), w') →
  k ∈ id_of <$> calculate_chunk_ids chunks →
  k ∈ store_ids (collection CHROMA_PATH w').
Proof.
  intros Hrun Hk.
  set (s := collection CHROMA_PATH w). set (s' := collection CHROMA_PATH w').
  set (new_chunks :=
    new_chunks_among (list_to_set (store_ids s)) (calculate_chunk_ids chunks)).
  assert (k ∈ store_ids s ∨ k ∈ id_of <$> new_chunks) as Hcases.
  { destruct (decide (k ∈ store_ids s)) as [?|Hout]; [by left|right].
    apply elem_of_new_chunks_ids. by rewrite not_elem_of_list_to_set. }
  pose proof (add_to_chroma_Ok chunks w w' Hrun) as Hok. cbn zeta in Hok.
  fold s in Hok. fold s' in Hok. fold new_chunks in Hok.
  destruct Hok as [[Hnil Hs']|[Hcons Hadd]].
  - rewrite Hs'. destruct Hcases as [?|Hin]; [done|].
    rewrite Hnil in Hin. by apply elem_of_nil in Hin.
  - apply store_ids_entry.
    destruct (decide (k ∈ id_of <$> new_chunks)) as [Hin|Hout].
    + eapply store_add_present; [done|by rewrite length_fmap|done].
    + rewrite (store_add_frame _ _ _ _ _ k Hadd Hout). apply store_ids_entry. tauto.
Qed.

Lemma new_chunks_among_nil (existing_ids : gset pyval) (chunks : list Document) :
  (∀ k, k ∈ id_of <$> chunks → k ∈ existing_ids) →
  new_chunks_among existing_ids chunks = [].
Proof.
  intros Hall. unfold new_chunks_among.
  induction chunks as [|chunk rest IH]; [done|].
  rewrite filter_cons. destruct (decide (id_of chunk ∉ existing_ids)) as [Hnew|_].
  - destruct Hnew. apply Hall. cbn. by left.
  - apply IH. intros k Hk. apply Hall. cbn. by right.
Qed.

(** C3. Ingestion is idempotent: after a run of [add_to_chroma] that
    returned, a second run on the same chunk sequence (as it was given, or as
    the first run left the chunks, with their ids) finds no new chunk, calls
    no [add_documents], prints that there is nothing to add, and leaves the
    index of the first run as it is. *)
Theorem add_to_chroma_idempotent (chunks : list Document) (w w1 : world S) :
  add_to_chroma chunks w = (Ok (), w1) →
  let existing_ids : gset pyval := list_to_set (store_ids (collection CHROMA_PATH w1)) in
  let w2 :=
    {| fs := fs w1;
       stdout := stdout w1
         ++ ["Number of existing documents in DB: " +:+ pretty (size existing_ids);
             "✅ No new documents to add"] |} in
  new_chunks_among existing_ids (calculate_chunk_ids chunks) = []
  ∧ add_to_chroma chunks w1 = (Ok (), w2)
  ∧ add_to_chroma (calculate_chunk_ids chunks) w1 = (Ok (), w2)
  ∧ collection CHROMA_PATH w2 = collection CHROMA_PATH w1.
Proof.
  intros Hrun existing_ids w2.
  assert (new_chunks_among existing_ids (calculate_chunk_ids chunks) = []) as Hnil.
  { apply new_chunks_among_nil. intros k Hk. apply elem_of_list_to_set.
    by apply (add_to_chroma_stores_ids chunks w w1). }
  assert (add_to_chroma chunks w1 = (Ok (), w2)) as Hagain.
  { rewrite add_to_chroma_run. cbn zeta. fold existing_ids. rewrite Hnil. cbn.
    rewrite (add_to_chroma_leaves_index chunks w w1 _ Hrun).
    rewrite decide_False by (intros Hne; by apply Hne).
    unfold w2. by rewrite <-app_assoc. }
  split_and!; [done|done| |done].
  rewrite add_to_chroma_run. cbn zeta. fold existing_ids.
  rewrite calculate_chunk_ids_idempotent, Hnil. cbn.
  rewrite (add_to_chroma_leaves_index chunks w w1 _ Hrun).
  rewrite decide_False by (intros Hne; by apply Hne).
  unfold w2. by rewrite <-app_assoc.
Qed.

End Ingestion.

(** ** ask_chroma: the context block and the sources *)

Section Retrieval.
Context {S Score : Type} `{!VectorStore S Score} `{!Services}.

(** The separator is a line feed twice, three dashes, a line feed twice. *)
Example CONTEXT_SEPARATOR_characters :
  CONTEXT_SEPARATOR
  = String "010" (String "010" ("---" +:+ String "010" (String "010" ""))).
Proof. reflexivity. Qed.

Lemma concat_cons_cons (sep x y : string) (l : list string) :
  String.concat sep (x :: y :: l) = x +:+ sep +:+ String.concat sep (y :: l).
Proof. reflexivity. Qed.

Lemma concat_join_first (sep x y : string) (l : list string) :
  String.concat sep ((x +:+ sep +:+ y) :: l) = x +:+ sep +:+ String.concat sep (y :: l).
Proof.
  destruct l as [|z l]; [done|].
  rewrite !concat_cons_cons. by rewrite !append_assoc.
Qed.

(** Joining with a separator, as [str.join] does, is the block of the
    design: the texts in order, the separator between consecutive ones. *)
Lemma concat_spec_context_block (sep : string) (texts : list string) :
  String.concat sep texts = spec_context_block sep texts.
Proof.
  destruct texts as [|first others]; [done|]. cbn [spec_context_block].
  revert first. induction others as [|text others IH]; intros first; [done|].
  cbn [foldl]. rewrite <-IH. by rewrite concat_join_first.
Qed.

Lemma concat_app (sep : string) (l1 l2 : list string) :
  l1 ≠ [] → l2 ≠ [] →
  String.concat sep (l1 ++ l2) = String.concat sep l1 +:+ sep +:+ String.concat sep l2.
Proof.
  intros Hl1 Hl2. induction l1 as [|x l1 IH]; [done|].
  destruct l1 as [|y l1].
  - destruct l2 as [|z l2]; [done|]. done.
  - change ((x :: y :: l1) ++ l2) with (x :: y :: (l1 ++ l2)).
    rewrite !concat_cons_cons.
    change (y :: l1 ++ l2) with ((y :: l1) ++ l2). rewrite IH by done.
    by rewrite !append_assoc.
Qed.

(** [ask_chroma], statement by statement. *)
Lemma ask_chroma_run (message : pyval) (n_results : Z) (w : world S) :
  ask_chroma message n_results w =
    match store_similarity_search_with_score message n_results
            (collection CHROMA_PATH w) with
    | Raise e => (Raise e, opened CHROMA_PATH w)
    | Ok results =>
        let prompt :=
          prompt_template_format PROMPT_TEMPLATE (context_text_of results) message in
        match model_invoke prompt with
        | Raise e => (Raise e, opened CHROMA_PATH w)
        | Ok answer =>
            let formatted_response :=
              "Response: " +:+ answer +:+ "<br>Sources: "
              +:+ py_str_list (sources_of results) in
            (Ok formatted_response,
             {| fs := fs (opened CHROMA_PATH w);
                stdout := stdout w ++ [formatted_response] |})
        end
    end.
Proof.
  unfold ask_chroma.
  rewrite (bind_Ok _ _ w (opened CHROMA_PATH w) CHROMA_PATH) by done.
  cbn beta.
  destruct (store_similarity_search_with_score message n_results
              (collection CHROMA_PATH w)) as [results|e] eqn:Hsearch.
  2:{ erewrite bind_Raise; [done|].
      unfold db_similarity_search_with_score. by rewrite collection_opened, Hsearch. }
  erewrite bind_Ok; cycle 1.
  { unfold db_similarity_search_with_score. by rewrite collection_opened, Hsearch. }
  cbn zeta. unfold lift.
  destruct (model_invoke _) as [answer|e] eqn:Hmodel.
  2:{ by erewrite bind_Raise. }
  erewrite bind_Ok by done. erewrite bind_Ok by done.
  by rewrite stdout_opened.
Qed.

(** [ask_chroma] passes a failure of the search on. *)
Lemma ask_chroma_search_raises (message : pyval) (n_results : Z) (w : world S)
    (e : exn) :
  store_similarity_search_with_score message n_results (collection CHROMA_PATH w)
    = Raise e →
  ask_chroma message n_results w = (Raise e, opened CHROMA_PATH w).
Proof. intros Hsearch. by rewrite ask_chroma_run, Hsearch. Qed.

(** C6. For every query and every result list the similarity search
    returns, the context block that [ask_chroma] puts into the prompt is the
    texts of the retrieved chunks in the order of the list (the order of the
    search, closest first), with, between consecutive texts and nowhere
    else, the delimiter of two line feeds, three dashes and two line feeds
    (a blank line, [---], a blank line). *)
Theorem ask_chroma_context_block (message : pyval) (n_results : Z) (w : world S)
    (results : list (Document * Score)) :
  store_similarity_search_with_score message n_results (collection CHROMA_PATH w)
    = Ok results →
  let delimiter :=
    String "010" (String "010" (String "-" (String "-" (String "-"
      (String "010" (String "010" EmptyString)))))) in
  let texts := (λ r, page_content r.1) <$> results in
  let block := spec_context_block delimiter texts in
  context_text_of results = block
  ∧ (∀ before after, results = before ++ after → before ≠ [] → after ≠ [] →
       block = context_text_of before +:+ delimiter +:+ context_text_of after)
  ∧ ask_chroma message n_results w =
      match model_invoke (prompt_template_format PROMPT_TEMPLATE block message) with
      | Raise e => (Raise e, opened CHROMA_PATH w)
      | Ok answer =>
          let formatted_response :=
            "Response: " +:+ answer +:+ "<br>Sources: "
            +:+ py_str_list (sources_of results) in
          (Ok formatted_response,
           {| fs := fs (opened CHROMA_PATH w);
              stdout := stdout w ++ [formatted_response] |})
      end.
Proof.
  intros Hsearch delimiter texts block.
  change delimiter with CONTEXT_SEPARATOR in *.
  assert (context_text_of results = block) as Hblock.
  { apply concat_spec_context_block. }
  split_and!; [done| |].
  - intros before after -> Hbefore Hafter. rewrite <-Hblock.
    unfold context_text_of. rewrite fmap_app.
    apply concat_app; by destruct before, after.
  - rewrite ask_chroma_run, Hsearch. cbn zeta. by rewrite Hblock.
Qed.

(** C7, as the code has it. When the search returns no result, as it does
    against an empty index, and the model returns, [ask_chroma] returns: the
    context block is empty, the prompt is the template filled with the empty
    block, and the source list is empty. [ask_chroma] hands [k] to the
    search as it is, [k = 0] included: when the search refuses it,
    [ask_chroma] raises what the search raises, and prints nothing. *)
Theorem ask_chroma_no_results (message : pyval) (n_results : Z) (w : world S) :
  (∀ answer,
     store_similarity_search_with_score message n_results (collection CHROMA_PATH w)
       = Ok [] →
     model_invoke (prompt_template_format PROMPT_TEMPLATE "" message) = Ok answer →
     context_text_of (@nil (Document * Score)) = ""
     ∧ ask_chroma message n_results w =
         (Ok ("Response: " +:+ answer +:+ "<br>Sources: []"),
          {| fs := fs (opened CHROMA_PATH w);
             stdout := stdout w ++ ["Response: " +:+ answer +:+ "<br>Sources: []"] |}))
  ∧ (∀ e,
       store_similarity_search_with_score message n_results (collection CHROMA_PATH w)
         = Raise e →
       ask_chroma message n_results w = (Raise e, opened CHROMA_PATH w)
       ∧ stdout (opened CHROMA_PATH w) = stdout w).
Proof.
  split.
  - intros answer Hsearch Hmodel. split; [done|].
    rewrite ask_chroma_run, Hsearch. cbn zeta.
    change (context_text_of []) with "". by rewrite Hmodel.
  - intros e Hsearch. split; [|apply stdout_opened].
    by rewrite ask_chroma_run, Hsearch.
Qed.

(** C8. When a retrieved entry has no ["id"] in its metadata, [ask_chroma]
    does not raise: with the model returning, it returns the response, whose
    source list has one source per result in the order of the results, the
    id where there is one and [None] at the position of an entry without
    id, rendered as [None]. *)
Theorem ask_chroma_missing_id (message : pyval) (n_results : Z) (w : world S)
    (results : list (Document * Score)) (answer : string) :
  store_similarity_search_with_score message n_results (collection CHROMA_PATH w)
    = Ok results →
  model_invoke (prompt_template_format PROMPT_TEMPLATE (context_text_of results) message)
    = Ok answer →
  let sources := sources_of results in
  let formatted_response :=
    "Response: " +:+ answer +:+ "<br>Sources: "
    +:+ "[" +:+ String.concat ", " (py_repr <$> sources) +:+ "]" in
  ask_chroma message n_results w =
    (Ok formatted_response,
     {| fs := fs (opened CHROMA_PATH w); stdout := stdout w ++ [formatted_response] |})
  ∧ length sources = length results
  ∧ (∀ i doc score, results !! i = Some (doc, score) →
       sources !! i = Some (default PNone (metadata doc !! "id"))
       ∧ (metadata doc !! "id" = None →
            sources !! i = Some PNone
            ∧ (py_repr <$> sources) !! i = Some "None")).
Proof.
  intros Hsearch Hmodel sources formatted_response. split_and!.
  - rewrite ask_chroma_run, Hsearch. cbn zeta. by rewrite Hmodel.
  - unfold sources, sources_of. by rewrite length_fmap.
  - intros i doc score Hi.
    assert (sources !! i = Some (default PNone (metadata doc !! "id"))) as Hsource.
    { unfold sources, sources_of. by rewrite list_lookup_fmap, Hi. }
    split; [done|]. intros Hnone. rewrite Hnone in Hsource. split; [done|].
    by rewrite list_lookup_fmap, Hsource.
Qed.

End Retrieval.

(** ** clear_database *)

Section Clearing.
Context {S Score : Type} `{!VectorStore S Score} `{!Services}.

Lemma clear_database_run (w : world S) :
  clear_database w =
    match fs w !! CHROMA_PATH with
    | Some _ => (Ok (), {| fs := delete CHROMA_PATH (fs w); stdout := stdout w |})
    | None => (Ok (), w)
    end.
Proof.
  unfold clear_database. erewrite bind_Ok by done.
  unfold shutil_rmtree. destruct (fs w !! CHROMA_PATH) as [s|] eqn:Hpath.
  - rewrite bool_decide_eq_true_2 by eauto. by rewrite Hpath.
  - rewrite bool_decide_eq_false_2; [done|]. by intros [? ?].
Qed.

(** Without the test of [os.path.exists], removing a missing directory
    raises. *)
Lemma shutil_rmtree_missing (path : string) (w : world S) :
  fs w !! path = None → shutil_rmtree path w = (Raise (FileNotFoundError path), w).
Proof. intros Hpath. unfold shutil_rmtree. by rewrite Hpath. Qed.

(** Where every path is a directory: [clear_database] on a missing index
    directory does nothing and raises nothing; and a call returns with the
    index directory absent, after which a second call returns too and
    changes nothing. No other directory changes and nothing is printed. *)
Lemma clear_database_of_directories (w : world S) :
  (fs w !! CHROMA_PATH = None → clear_database w = (Ok (), w))
  ∧ ∃ w1,
      clear_database w = (Ok (), w1)
      ∧ fs w1 !! CHROMA_PATH = None
      ∧ clear_database w1 = (Ok (), w1)
      ∧ (∀ path, path ≠ CHROMA_PATH → fs w1 !! path = fs w !! path)
      ∧ stdout w1 = stdout w.
Proof.
  split.
  { intros Hpath. by rewrite clear_database_run, Hpath. }
  rewrite clear_database_run.
  destruct (fs w !! CHROMA_PATH) as [s|] eqn:Hpath.
  - eexists. split; [done|]. cbn [fs stdout]. split_and!.
    + apply lookup_delete_eq.
    + rewrite clear_database_run. cbn [fs]. by rewrite lookup_delete_eq.
    + intros path Hne. by rewrite lookup_delete_ne.
    + done.
  - exists w. split_and!; try done.
    by rewrite clear_database_run, Hpath.
Qed.

(** On names that are all directories, [Files.clear_database] is
    [clear_database]. *)
Lemma clear_database_directories (w : world S) :
  Files.clear_database (directories w)
  = ((clear_database w).1, directories (clear_database w).2).
Proof.
  rewrite clear_database_run.
  unfold Files.clear_database, Files.os_path_exists, Files.shutil_rmtree, directories.
  rewrite lookup_fmap.
  destruct (fs w !! CHROMA_PATH) as [s|] eqn:Hpath; cbn [fmap option_fmap option_map fst snd fs].
  - by rewrite fmap_delete.
  - done.
Qed.

End Clearing.

Section ClearingFiles.
Context {S : Type}.


End ClearingFiles.

(** ** chatbot: the populate directive *)

Section Dispatch.
Context {S Score : Type} `{!VectorStore S Score} `{!Services}.

Lemma populate_database_run (w : world S) :
  populate_database w =
    match loader_load DATA_PATH with
    | Ok documents => add_to_chroma (split_documents documents) w
    | Raise e => (Raise e, w)
    end.
Proof.
  unfold populate_database, load_documents, lift.
  destruct (loader_load DATA_PATH) as [documents|e].
  - by erewrite bind_Ok.
  - by erewrite bind_Raise.
Qed.

Lemma chatbot_populate_run (request : HttpRequest) (w : world S) :
  method request = "POST" →
  POST request !! "message" = Some "Populate" →
  chatbot request w =
    match populate_database
            {| fs := fs w; stdout := stdout w ++ ["Populate Database"] |} with
    | (Ok _, w') =>
        (Ok (JsonResponse {[ "message" := PStr "Populate";
                             "response" := PStr "Database populated" ]}), w')
    | (Raise e, w') => (Raise e, w')
    end.
Proof.
  intros Hmethod Hmessage. unfold chatbot, post_get.
  rewrite Hmethod, Hmessage. rewrite decide_True by done. rewrite decide_True by done.
  erewrite bind_Ok by done.
  destruct (populate_database _) as [[[]|e] w'] eqn:Hpopulate.
  - erewrite bind_Ok by done. done.
  - by erewrite bind_Raise.
Qed.

(** C4, as the code has it. For every populate request that returns, the
    response is the fixed pair of the message ["Populate"] and the text
    ["Database populated"]: it carries no count. The count of the new chunks
    of the run, those whose id the index did not hold, is only printed: it
    is in the last line of the run's output, the line that announces the
    addition, and when there is none that line says so. *)
Theorem chatbot_populate_response (request : HttpRequest) (w w' : world S)
    (response : HttpResponse) :
  method request = "POST" →
  POST request !! "message" = Some "Populate" →
  chatbot request w = (Ok response, w') →
  response = JsonResponse {[ "message" := PStr "Populate";
                             "response" := PStr "Database populated" ]}
  ∧ ∃ documents,
      loader_load DATA_PATH = Ok documents
      ∧ let existing_ids : gset pyval :=
          list_to_set (store_ids (collection CHROMA_PATH w)) in
        let new_chunks :=
          new_chunks_among existing_ids
            (calculate_chunk_ids (split_documents documents)) in
        stdout w' = stdout w ++
          ["Populate Database";
           "Number of existing documents in DB: " +:+ pretty (size existing_ids);
           if decide (length new_chunks ≠ 0)
           then "👉 Adding new documents: " +:+ pretty (length new_chunks)
           else "✅ No new documents to add"].
Proof.
  intros Hmethod Hmessage.
  rewrite (chatbot_populate_run request w Hmethod Hmessage).
  rewrite populate_database_run.
  destruct (loader_load DATA_PATH) as [documents|e] eqn:Hload; [|done].
  rewrite add_to_chroma_run. cbn zeta.
  change (collection CHROMA_PATH {| fs := fs w; stdout := _ |})
    with (collection CHROMA_PATH w).
  set (existing_ids := list_to_set (store_ids (collection CHROMA_PATH w)) : gset pyval).
  set (new_chunks :=
    new_chunks_among existing_ids (calculate_chunk_ids (split_documents documents))).
  destruct (decide (length new_chunks ≠ 0)).
  - destruct (store_add_documents _ _ _) as [[[]|e] s'] eqn:Hadd; [|done].
    intros [= <- <-]. split; [done|].
    exists documents. split; [done|]. cbn [stdout]. fold new_chunks.
    rewrite decide_True by done. by rewrite <-!app_assoc.
  - intros [= <- <-]. split; [done|].
    exists documents. split; [done|]. cbn [stdout]. fold new_chunks.
    rewrite decide_False by done. by rewrite <-!app_assoc.
Qed.

End Dispatch.

(** ** The map-backed collection meets the laws *)

Section MapStore.

Lemma map_store_add_nil_docs (ids : list pyval) (s : gmap pyval Document) :
  map_store_add [] ids s = s.
Proof. unfold map_store_add. by destruct ids. Qed.

Lemma map_store_add_cons (d : Document) (docs : list Document) (k : pyval)
    (ids : list pyval) (s : gmap pyval Document) :
  map_store_add (d :: docs) (k :: ids) s = map_store_add docs ids (<[k := d]> s).
Proof. reflexivity. Qed.

Lemma map_store_add_frame (docs : list Document) (ids : list pyval)
    (s : gmap pyval Document) (k : pyval) :
  k ∉ ids → map_store_add docs ids s !! k = s !! k.
Proof.
  revert docs s. induction ids as [|i ids IH]; intros docs s Hk; [done|].
  destruct docs as [|d docs]; [done|].
  rewrite map_store_add_cons, IH by (intros ?; apply Hk; by right).
  apply lookup_insert_ne. intros ->. apply Hk. by left.
Qed.

Lemma map_store_add_present (docs : list Document) (ids : list pyval)
    (s : gmap pyval Document) (k : pyval) :
  length docs = length ids → k ∈ ids → is_Some (map_store_add docs ids s !! k).
Proof.
  revert docs s. induction ids as [|i ids IH]; intros docs s Hlen Hk.
  { by apply elem_of_nil in Hk. }
  destruct docs as [|d docs]; [done|]. rewrite map_store_add_cons.
  destruct (decide (k ∈ ids)) as [Hin|Hout].
  - apply IH; [by injection Hlen|done].
  - apply elem_of_cons in Hk as [->|?]; [|done].
    rewrite map_store_add_frame by done. by rewrite lookup_insert_eq.
Qed.

Lemma map_store_add_entry (docs : list Document) (ids : list pyval)
    (s : gmap pyval Document) (k : pyval) (d : Document) :
  map_store_add docs ids s !! k = Some d →
  s !! k = Some d ∨ ∃ n, ids !! n = Some k ∧ docs !! n = Some d.
Proof.
  revert docs s. induction ids as [|i ids IH]; intros docs s Hd; [by left|].
  destruct docs as [|d0 docs].
  { left. by rewrite map_store_add_nil_docs in Hd. }
  rewrite map_store_add_cons in Hd. apply IH in Hd as [Hd|(n & Hn & Hdn)].
  - destruct (decide (i = k)) as [->|Hne].
    + rewrite lookup_insert_eq in Hd. injection Hd as ->. right. by exists 0.
    + rewrite lookup_insert_ne in Hd by done. by left.
  - right. by exists (Datatypes.S n).
Qed.

#[global] Instance map_store_laws : VectorStoreLaws (gmap pyval Document) nat.
Proof.
  split.
  - intros s k. cbn. rewrite list_elem_of_fmap. split.
    + intros ([k' d] & -> & Hkd). apply elem_of_map_to_list in Hkd. by exists d.
    + intros [d Hd]. exists (k, d). split; [done|]. by apply elem_of_map_to_list.
  - intros docs ids s s' r k [= _ <-] Hk. by apply map_store_add_frame.
  - intros docs ids s s' k [= <-] Hlen Hk. by apply map_store_add_present.
  - intros docs ids s s' k d [= <-] Hlen Hnone Hd. cbn in *.
    apply map_store_add_entry in Hd as [Hd|?]; [congruence|done].
Qed.

Lemma strict_store_laws : @VectorStoreLaws (gmap pyval Document) nat strict_store.
Proof.
  split.
  - apply (@store_ids_entry _ _ map_store map_store_laws).
  - intros docs ids s s' r k Hadd Hk. cbn in Hadd.
    destruct (decide (NoDup ids)); injection Hadd as _ <-; [|done].
    by apply map_store_add_frame.
  - intros docs ids s s' k Hadd Hlen Hk. cbn in Hadd.
    destruct (decide (NoDup ids)); [|done]. injection Hadd as <-.
    by apply map_store_add_present.
  - intros docs ids s s' k d Hadd Hlen Hnone Hd. cbn in *.
    destruct (decide (NoDup ids)); [|done]. injection Hadd as <-.
    apply map_store_add_entry in Hd as [Hd|?]; [congruence|done].
Qed.

End MapStore.

(** ** The statements at concrete inputs *)

Section Instances.

(** A run that returns is the pair of its value and the world it leaves. *)
Lemma run_returns {A W : Type} (run : result A * W) (a : A) :
  run.1 = Ok a → run = (Ok a, run.2).
Proof. destruct run as [r w]. cbn. by intros ->. Qed.

Example calculate_chunk_ids_three_on_a_page :
  id_of <$> calculate_chunk_ids
    [mk_chunk "a" "doc.pdf" 0; mk_chunk "b" "doc.pdf" 0; mk_chunk "c" "doc.pdf" 0]
  = [PStr "doc.pdf:0:0"; PStr "doc.pdf:0:1"; PStr "doc.pdf:0:2"].
Proof. vm_compute. reflexivity. Qed.

Example calculate_chunk_ids_two_documents :
  id_of <$> calculate_chunk_ids two_documents
  = [PStr "doc.pdf:0:0"; PStr "doc.pdf:0:1"; PStr "doc.pdf:1:0"; PStr "other.pdf:0:0"].
Proof. vm_compute. reflexivity. Qed.

Example calculate_chunk_ids_no_metadata :
  id_of <$> calculate_chunk_ids
    [{| page_content := "a"; metadata := ∅ |}; {| page_content := "b"; metadata := ∅ |}]
  = [PStr "None:None:0"; PStr "None:None:1"].
Proof. vm_compute. reflexivity. Qed.

(** The design's deduplication example: with [A:0:0] and [A:0:1] stored and
    a document that gives [A:0:0], [A:0:1] and [A:0:2], only [A:0:2] is
    added, and the two stored entries keep their old text. *)
Example add_to_chroma_dedup :
  run_add_to_chroma dedup_chunks dedup_world = (Ok (), dedup_world_after).
Proof. apply run_returns. vm_compute. reflexivity. Qed.

Example add_to_chroma_dedup_index :
  let s' := collection CHROMA_PATH dedup_world_after in
  stdout dedup_world_after
    = ["Number of existing documents in DB: 2"; "👉 Adding new documents: 1"]
  ∧ store_ids s' = [PStr "A:0:1"; PStr "A:0:2"; PStr "A:0:0"]
  ∧ page_content <$> store_entry s' (PStr "A:0:0") = Some "old first"
  ∧ page_content <$> store_entry s' (PStr "A:0:1") = Some "old second"
  ∧ page_content <$> store_entry s' (PStr "A:0:2") = Some "third".
Proof. cbn zeta. split_and!; vm_compute; reflexivity. Qed.

Lemma add_to_chroma_adds_new_chunks_only_witness :
  VectorStoreLaws (gmap pyval Document) nat
  ∧ ∃ w',
      run_add_to_chroma dedup_chunks dedup_world = (Ok (), w')
      ∧ (∀ k, k ∈ store_ids dedup_index →
           store_entry (collection CHROMA_PATH w') k = store_entry dedup_index k)
      ∧ (∀ k, k ∉ store_ids dedup_index →
           (is_Some (store_entry (collection CHROMA_PATH w') k)
            ↔ k ∈ id_of <$> calculate_chunk_ids dedup_chunks)).
Proof.
  split; [exact map_store_laws|].
  destruct (add_to_chroma_adds_new_chunks_only (S := gmap pyval Document) (Score := nat)
              dedup_chunks dedup_world) as (r & w' & Hrun & Hold & Hnew).
  rewrite add_to_chroma_dedup in Hrun.
  pose proof (f_equal fst Hrun) as Hr. pose proof (f_equal snd Hrun) as Hw.
  cbn [fst snd] in Hr, Hw. subst r w'.
  exists dedup_world_after. split; [exact add_to_chroma_dedup|].
  split; [exact Hold|exact (proj1 (proj2 Hnew))].
Defined.

Lemma add_to_chroma_idempotent_witness :
  run_add_to_chroma dedup_chunks dedup_world = (Ok (), dedup_world_after)
  ∧ new_chunks_among
      (list_to_set (store_ids (collection CHROMA_PATH dedup_world_after)))
      (calculate_chunk_ids dedup_chunks) = []
  ∧ run_add_to_chroma dedup_chunks dedup_world_after
    = (Ok (),
       {| fs := fs dedup_world_after;
          stdout := stdout dedup_world_after
            ++ ["Number of existing documents in DB: "
                  +:+ pretty (size (list_to_set (C := gset pyval)
                        (store_ids (collection CHROMA_PATH dedup_world_after))));
                "✅ No new documents to add"] |}).
Proof.
  split; [exact add_to_chroma_dedup|].
  destruct (add_to_chroma_idempotent (S := gmap pyval Document) (Score := nat)
              dedup_chunks dedup_world dedup_world_after add_to_chroma_dedup)
    as (Hnone & Hagain & _).
  split; [exact Hnone|exact Hagain].
Defined.

Example add_to_chroma_second_run_prints :
  stdout (run_add_to_chroma dedup_chunks dedup_world_after).2
  = ["Number of existing documents in DB: 2"; "👉 Adding new documents: 1";
     "Number of existing documents in DB: 3"; "✅ No new documents to add"].
Proof. vm_compute. reflexivity. Qed.

(** Out of page-grouped order two new chunks get one id. The map-backed
    collection keeps the later of the two; the strict one refuses the batch,
    and [add_to_chroma] raises. *)
Example add_to_chroma_interleaved :
  id_of <$> calculate_chunk_ids interleaved_chunks
    = [PStr "doc.pdf:0:0"; PStr "doc.pdf:1:0"; PStr "doc.pdf:0:0"]
  ∧ (run_add_to_chroma interleaved_chunks empty_world).1 = Ok ()
  ∧ (λ d, page_content d)
      <$> store_entry
            (collection CHROMA_PATH (run_add_to_chroma interleaved_chunks empty_world).2)
            (PStr "doc.pdf:0:0")
    = Some "c"
  ∧ (@add_to_chroma (gmap pyval Document) nat strict_store
       interleaved_chunks empty_world).1
    = Raise (ServiceError "duplicate ids").
Proof. split_and!; vm_compute; reflexivity. Qed.

Lemma calculate_chunk_ids_unique_witness :
  page_grouped two_documents
  ∧ NoDup (id_of <$> calculate_chunk_ids two_documents).
Proof.
  assert (page_grouped two_documents) as Hgrouped.
  { apply contiguous_page_grouped. vm_compute. reflexivity. }
  split; [exact Hgrouped|].
  exact (proj1 (calculate_chunk_ids_unique two_documents Hgrouped)).
Defined.

(** With a reference that occurs twice the object is written twice, and
    keeps the later id. *)
Example calculate_chunk_ids_shared_object :
  (λ objs', (fst objs', (λ r, id_of <$> snd objs' !! r) <$> [1; 2; 3]%positive))
    <$> InPlace.calculate_chunk_ids shared_chunks shared_objects
  = Some (shared_chunks,
          [Some (PStr "doc.pdf:0:2"); Some (PStr "doc.pdf:0:1"); Some PNone]).
Proof. vm_compute. reflexivity. Qed.

Lemma shared_chunks_allocated (r : positive) :
  r ∈ shared_chunks → is_Some (shared_objects !! r).
Proof.
  unfold shared_chunks. intros Hr.
  repeat (apply elem_of_cons in Hr as [->|Hr]); [by eexists..|].
  by apply elem_of_nil in Hr.
Qed.

Lemma calculate_chunk_ids_in_place_witness :
  (∀ r, r ∈ shared_chunks → is_Some (shared_objects !! r))
  ∧ ∃ objs',
      InPlace.calculate_chunk_ids shared_chunks shared_objects = Some (shared_chunks, objs')
      ∧ ∀ r,
          (shared_objects !! r = None → objs' !! r = None)
          ∧ (∀ d, shared_objects !! r = Some d →
               ∃ d', objs' !! r = Some d'
                     ∧ page_content d' = page_content d
                     ∧ (∀ key, key ≠ "id" → metadata d' !! key = metadata d !! key)
                     ∧ (r ∉ shared_chunks → d' = d)
                     ∧ (r ∈ shared_chunks → ∃ s, metadata d' !! "id" = Some (PStr s))).
Proof.
  split; [exact shared_chunks_allocated|].
  exact (calculate_chunk_ids_in_place shared_chunks shared_objects shared_chunks_allocated).
Defined.

(** A first populate request on an empty index adds the three chunks of the
    document; a second one adds none. The two responses are the same. *)
Example chatbot_populate_first :
  run_chatbot populate_request empty_world
  = (Ok (JsonResponse {[ "message" := PStr "Populate";
                         "response" := PStr "Database populated" ]}),
     populated_world).
Proof. apply run_returns. vm_compute. reflexivity. Qed.

Example chatbot_populate_second :
  run_chatbot populate_request populated_world
  = (Ok (JsonResponse {[ "message" := PStr "Populate";
                         "response" := PStr "Database populated" ]}),
     populated_twice_world).
Proof. apply run_returns. vm_compute. reflexivity. Qed.

Example chatbot_populate_counts :
  stdout populated_world
    = ["Populate Database"; "Number of existing documents in DB: 0";
       "👉 Adding new documents: 3"]
  ∧ stdout populated_twice_world
    = stdout populated_world
      ++ ["Populate Database"; "Number of existing documents in DB: 3";
          "✅ No new documents to add"]
  ∧ store_ids (collection CHROMA_PATH empty_world) = []
  ∧ store_ids (collection CHROMA_PATH populated_world)
    = [PStr "data/doc.pdf:0:1"; PStr "data/doc.pdf:0:2"; PStr "data/doc.pdf:0:0"]
  ∧ store_ids (collection CHROMA_PATH populated_twice_world)
    = [PStr "data/doc.pdf:0:1"; PStr "data/doc.pdf:0:2"; PStr "data/doc.pdf:0:0"].
Proof. split_and!; vm_compute; reflexivity. Qed.

(** C4 as the design states it fails: no field of the populate response, and
    nothing computed from the response, is the number of chunks the run
    added, since a run that adds three chunks and a run that adds none
    return the same response. *)
Lemma chatbot_populate_response_has_no_count :
  ¬ ∃ addedCount : HttpResponse → nat,
      ∀ (w w' : world (gmap pyval Document)) (response : HttpResponse),
        run_chatbot populate_request w = (Ok response, w') →
        addedCount response
        = length (store_ids (collection CHROMA_PATH w'))
          - length (store_ids (collection CHROMA_PATH w)).
Proof.
  intros [addedCount Hcount].
  pose proof (Hcount _ _ _ chatbot_populate_first) as Hfirst.
  pose proof (Hcount _ _ _ chatbot_populate_second) as Hsecond.
  destruct chatbot_populate_counts as (_ & _ & Hids0 & Hids1 & Hids2).
  rewrite Hids0, Hids1 in Hfirst. rewrite Hids1, Hids2 in Hsecond.
  cbn in Hfirst, Hsecond. congruence.
Qed.

Lemma chatbot_populate_response_witness :
  method populate_request = "POST"
  ∧ POST populate_request !! "message" = Some "Populate"
  ∧ run_chatbot populate_request empty_world
    = (Ok (JsonResponse {[ "message" := PStr "Populate";
                           "response" := PStr "Database populated" ]}),
       populated_world)
  ∧ ∃ documents,
      @loader_load example_services DATA_PATH = Ok documents
      ∧ let existing_ids : gset pyval :=
          list_to_set (store_ids (collection CHROMA_PATH empty_world)) in
        let new_chunks :=
          new_chunks_among existing_ids
            (calculate_chunk_ids (@split_documents example_services documents)) in
        stdout populated_world = stdout empty_world ++
          ["Populate Database";
           "Number of existing documents in DB: " +:+ pretty (size existing_ids);
           if decide (length new_chunks ≠ 0)
           then "👉 Adding new documents: " +:+ pretty (length new_chunks)
           else "✅ No new documents to add"].
Proof.
  split; [reflexivity|]. split; [reflexivity|].
  split; [exact chatbot_populate_first|].
  exact (proj2 (chatbot_populate_response (S := gmap pyval Document) (Score := nat)
                  (H := example_services) populate_request empty_world
                  populated_world _ eq_refl eq_refl chatbot_populate_first)).
Defined.

Example ask_chroma_two_results :
  store_similarity_search_with_score (PStr "q") 2 (collection CHROMA_PATH dedup_world)
  = Ok [(set_metadata (mk_chunk "old second" "A" 0) "id" (PStr "A:0:1"), 0);
        (set_metadata (mk_chunk "old first" "A" 0) "id" (PStr "A:0:0"), 1)].
Proof. vm_compute. reflexivity. Qed.

Lemma ask_chroma_context_block_witness :
  store_similarity_search_with_score (PStr "q") 2 (collection CHROMA_PATH dedup_world)
  = Ok [(set_metadata (mk_chunk "old second" "A" 0) "id" (PStr "A:0:1"), 0);
        (set_metadata (mk_chunk "old first" "A" 0) "id" (PStr "A:0:0"), 1)]
  ∧ context_text_of
      [(set_metadata (mk_chunk "old second" "A" 0) "id" (PStr "A:0:1"), 0);
       (set_metadata (mk_chunk "old first" "A" 0) "id" (PStr "A:0:0"), 1)]
    = spec_context_block
        (String "010" (String "010" (String "-" (String "-" (String "-"
           (String "010" (String "010" EmptyString)))))))
        ["old second"; "old first"]
  ∧ spec_context_block
      (String "010" (String "010" (String "-" (String "-" (String "-"
         (String "010" (String "010" EmptyString)))))))
      ["old second"; "old first"]
    = "old second

---

old first".
Proof.
  split; [exact ask_chroma_two_results|]. split; [|reflexivity].
  exact (proj1 (ask_chroma_context_block (H := example_services)
                  (PStr "q") 2 dedup_world _ ask_chroma_two_results)).
Defined.

Example ask_chroma_two_results_response :
  (run_ask_chroma (PStr "q") 2 dedup_world).1
  = Ok "Response: echo Human: old second

---

old first | q<br>Sources: ['A:0:1', 'A:0:0']".
Proof. vm_compute. reflexivity. Qed.

(** A query on an empty index has no result; a query for no result at all
    is refused by the collection. *)
Example search_on_empty_index :
  store_similarity_search_with_score (PStr "q") 4 (collection CHROMA_PATH empty_world)
  = Ok [].
Proof. vm_compute. reflexivity. Qed.

Example search_with_k_zero :
  store_similarity_search_with_score (PStr "q") 0 (collection CHROMA_PATH dedup_world)
  = Raise (ServiceError "number of requested results").
Proof. vm_compute. reflexivity. Qed.

(** C7 as the design states it fails: with [k = 0], on a collection that
    refuses a number of results that is not positive, as Chroma does,
    [ask_chroma] raises, and the strict collection gives the same. *)
Lemma ask_chroma_k_zero_raises :
  (run_ask_chroma (PStr "q") 0 dedup_world).1
  = Raise (ServiceError "number of requested results")
  ∧ (@ask_chroma (gmap pyval Document) nat strict_store example_services
       (PStr "q") 0 dedup_world).1
    = Raise (ServiceError "number of requested results").
Proof. split; vm_compute; reflexivity. Qed.

Lemma ask_chroma_no_results_witness :
  store_similarity_search_with_score (PStr "q") 4 (collection CHROMA_PATH empty_world)
  = Ok []
  ∧ @model_invoke example_services
      (@prompt_template_format example_services PROMPT_TEMPLATE "" (PStr "q"))
    = Ok "echo Human:  | q"
  ∧ run_ask_chroma (PStr "q") 4 empty_world
    = (Ok "Response: echo Human:  | q<br>Sources: []",
       {| fs := fs (opened CHROMA_PATH empty_world);
          stdout := stdout empty_world
                      ++ ["Response: echo Human:  | q<br>Sources: []"] |}).
Proof.
  split; [exact search_on_empty_index|]. split; [reflexivity|].
  exact (proj2 (proj1 (ask_chroma_no_results (H := example_services)
                         (PStr "q") 4 empty_world)
                  "echo Human:  | q" search_on_empty_index eq_refl)).
Defined.

(** [clear_database] on an index directory, and on nothing. *)
Example clear_database_directory :
  Files.clear_database (directories dedup_world) = (Ok (), ∅)
  ∧ Files.clear_database (∅ : gmap string (Files.node (gmap pyval Document))) = (Ok (), ∅).
Proof. split; vm_compute; reflexivity. Qed.


Example clear_database_symlink :
  (Files.clear_database
     ({[ CHROMA_PATH := Files.Symlink true ]} : gmap string (Files.node unit))).1
  = Raise (OSError "Cannot call rmtree on a symbolic link")
  ∧ (Files.clear_database
       ({[ CHROMA_PATH := Files.Symlink false ]} : gmap string (Files.node unit))).1
    = Ok ().
Proof. split; reflexivity. Qed.

Example ask_chroma_anonymous_results :
  store_similarity_search_with_score (PStr "q") 4 (collection CHROMA_PATH anonymous_world)
  = Ok [(set_metadata (mk_chunk "first" "A" 0) "id" (PStr "A:0:0"), 0);
        ({| page_content := "second"; metadata := ∅ |}, 1)].
Proof. vm_compute. reflexivity. Qed.

Lemma ask_chroma_missing_id_witness :
  store_similarity_search_with_score (PStr "q") 4 (collection CHROMA_PATH anonymous_world)
  = Ok [(set_metadata (mk_chunk "first" "A" 0) "id" (PStr "A:0:0"), 0);
        ({| page_content := "second"; metadata := ∅ |}, 1)]
  ∧ (run_ask_chroma (PStr "q") 4 anonymous_world).1
    = Ok "Response: echo Human: first

---

second | q<br>Sources: ['A:0:0', None]"
  ∧ sources_of
      [(set_metadata (mk_chunk "first" "A" 0) "id" (PStr "A:0:0"), 0);
       ({| page_content := "second"; metadata := ∅ |}, 1)]
    = [PStr "A:0:0"; PNone].
Proof.
  split; [exact ask_chroma_anonymous_results|].
  destruct (ask_chroma_missing_id (H := example_services)
              (PStr "q") 4 anonymous_world _ "echo Human: first

---

second | q" ask_chroma_anonymous_results eq_refl) as (Hrun & _ & _).
  split; [by rewrite Hrun|reflexivity].
Defined.

End Instances.

(** * Further properties of the code *)

(** ** calculate_chunk_ids: stale ids, the counter, the id format *)

Section ChunkIdsMore.

Lemma set_metadata_same_but_id (d d' : Document) (v : pyval) :
  same_but_id d d' → set_metadata d' "id" v = set_metadata d "id" v.
Proof.
  intros [Htext Hkeys]. destruct d as [t m], d' as [t' m']. cbn in *.
  unfold set_metadata. cbn. f_equal; [done|].
  apply map_eq. intros key. destruct (decide (key = "id")) as [->|Hne].
  - by rewrite !lookup_insert_eq.
  - rewrite !lookup_insert_ne by done. by apply Hkeys.
Qed.

Lemma chunk_ids_loop_same_but_id (chunks chunks' : list Document)
    (last_page_id : option string) (current_chunk_index : nat) :
  Forall2 same_but_id chunks chunks' →
  chunk_ids_loop last_page_id current_chunk_index chunks'
  = chunk_ids_loop last_page_id current_chunk_index chunks.
Proof.
  intros Hsame. revert last_page_id current_chunk_index.
  induction Hsame as [|d d' chunks chunks' Hd _ IH];
    intros last_page_id current_chunk_index; [done|].
  cbn [chunk_ids_loop].
  rewrite (page_id_of_same_but_id d d' Hd), (set_metadata_same_but_id d d' _ Hd).
  by rewrite IH.
Qed.

Lemma calculate_chunk_ids_same_but_id (chunks : list Document) :
  Forall2 same_but_id chunks (calculate_chunk_ids chunks).
Proof.
  apply Forall2_same_length_lookup. split.
  { by rewrite length_calculate_chunk_ids. }
  intros i d d' Hd Hd'. rewrite calculate_chunk_ids_lookup, Hd in Hd'.
  injection Hd' as <-. apply same_but_id_set_metadata.
Qed.

(** X1. [calculate_chunk_ids] overwrites whatever id a chunk carries: two
    chunk sequences that differ only in the ["id"] keys of their chunks get
    the same result, so ids of an earlier run never leak into the new ids,
    and running the function on its own result changes nothing. *)
Theorem calculate_chunk_ids_overwrites_ids (chunks chunks' : list Document) :
  Forall2 same_but_id chunks chunks' →
  calculate_chunk_ids chunks' = calculate_chunk_ids chunks
  ∧ calculate_chunk_ids (calculate_chunk_ids chunks') = calculate_chunk_ids chunks.
Proof.
  intros Hsame.
  assert (calculate_chunk_ids chunks' = calculate_chunk_ids chunks) as Heq.
  { by apply chunk_ids_loop_same_but_id. }
  split; [done|]. rewrite Heq.
  apply chunk_ids_loop_same_but_id, calculate_chunk_ids_same_but_id.
Qed.

(** The counter at a position is the distance to the start of the run of
    chunks of one page identity that the position lies in. *)
Lemma spec_chunk_index_run_start (chunks : list Document) (i : nat) (c : Document) :
  chunks !! i = Some c →
  ∃ start,
    start ≤ i
    ∧ spec_chunk_index chunks i = i - start
    ∧ (∀ m, start ≤ m ≤ i →
         ∃ d, chunks !! m = Some d ∧ page_id_of d = page_id_of c)
    ∧ (start = 0
       ∨ ∃ p, chunks !! (start - 1) = Some p ∧ page_id_of p ≠ page_id_of c).
Proof.
  revert c. induction i as [|j IH]; intros c Hc.
  { exists 0. split_and!; [done|done| |by left].
    intros m Hm. assert (m = 0) as -> by lia. eauto. }
  destruct (lookup_lt_is_Some_2 chunks j) as [p Hp].
  { apply lookup_lt_Some in Hc. lia. }
  cbn [spec_chunk_index]. rewrite Hp, Hc.
  rewrite (spec_page_identity_eq c), (spec_page_identity_eq p).
  destruct (decide (page_id_of c = page_id_of p)) as [Heq|Hne].
  - destruct (IH p Hp) as (start & Hstart & Hindex & Hrun & Hbound).
    exists start. split_and!; [lia|lia| |].
    + intros m Hm. destruct (decide (m = S j)) as [->|]; [by eauto|].
      destruct (Hrun m) as (d & Hd & Hpage); [lia|]. exists d. by rewrite Heq.
    + destruct Hbound as [?|(q & Hq & Hpage)]; [by left|right].
      exists q. by rewrite Heq.
  - exists (S j). split_and!; [done|lia| |].
    + intros m Hm. assert (m = S j) as -> by lia. eauto.
    + right. exists p. replace (S j - 1) with j by lia. split; [done|].
      by intros Heq.
Qed.

(** X2. In any order of the chunks, the id of the chunk at position [i] is
    its page identity followed by the distance from [i] to the start of the
    run it lies in: all chunks from that start to [i] have its page identity,
    and the chunk before the start, when there is one, has another. So the
    counter restarts whenever the page identity changes, also for a page
    that was seen before. *)
Theorem calculate_chunk_ids_counts_from_run_start (chunks : list Document) (i : nat)
    (c : Document) :
  chunks !! i = Some c →
  ∃ start,
    start ≤ i
    ∧ (id_of <$> calculate_chunk_ids chunks) !! i
      = Some (PStr (chunk_id_string (page_id_of c) (i - start)))
    ∧ (∀ m, start ≤ m ≤ i →
         ∃ d, chunks !! m = Some d ∧ page_id_of d = page_id_of c)
    ∧ (start = 0
       ∨ ∃ p, chunks !! (start - 1) = Some p ∧ page_id_of p ≠ page_id_of c).
Proof.
  intros Hc.
  destruct (spec_chunk_index_run_start chunks i c Hc)
    as (start & Hstart & Hindex & Hrun & Hbound).
  exists start. split_and!; [done| |done|done].
  rewrite calculate_chunk_ids_id_lookup, Hc. cbn.
  by rewrite spec_chunk_id_eq, Hindex.
Qed.

Lemma filter_none {A : Type} (P : A → Prop) `{!∀ x, Decision (P x)} (l : list A) :
  Forall (λ x, ¬ P x) l → filter P l = [].
Proof.
  induction 1 as [|x l Hx _ IH]; [done|]. by rewrite filter_cons_False.
Qed.

(** In page-grouped order the counter at a position is the number of
    earlier chunks of the same page identity. *)
Lemma spec_chunk_index_count (chunks : list Document) (i : nat) (c : Document) :
  page_grouped chunks →
  chunks !! i = Some c →
  spec_chunk_index chunks i
  = length (filter (λ d, page_id_of d = page_id_of c) (take i chunks)).
Proof.
  intros Hgrouped. revert c. induction i as [|j IH]; intros c Hc; [done|].
  destruct (lookup_lt_is_Some_2 chunks j) as [p Hp].
  { apply lookup_lt_Some in Hc. lia. }
  cbn [spec_chunk_index]. rewrite Hp, Hc.
  rewrite (spec_page_identity_eq c), (spec_page_identity_eq p).
  rewrite (take_S_r chunks j p Hp), filter_app, length_app.
  destruct (decide (page_id_of c = page_id_of p)) as [Heq|Hne].
  - rewrite (IH p Hp), Heq. rewrite filter_cons_True by done. cbn. lia.
  - rewrite filter_cons_False by (by intros Heq). cbn. rewrite Nat.add_0_r.
    rewrite filter_none; [done|].
    apply Forall_forall. intros d Hd Hpage.
    apply list_elem_of_lookup_1 in Hd as [m Hm].
    apply lookup_take_Some in Hm as [Hm Hmj].
    destruct Hne. rewrite <-Hpage. symmetry.
    apply (Hgrouped m j (S j) d p c); auto with lia.
Qed.

(** X3. In page-grouped order the chunks of a page are numbered without
    gaps: the id of the chunk at position [i] is its page identity followed
    by the number of earlier chunks of the same page identity. *)
Theorem calculate_chunk_ids_numbers_pages_without_gaps (chunks : list Document)
    (i : nat) (c : Document) :
  page_grouped chunks →
  chunks !! i = Some c →
  (id_of <$> calculate_chunk_ids chunks) !! i
  = Some (PStr (chunk_id_string (page_id_of c)
            (length (filter (λ d, page_id_of d = page_id_of c) (take i chunks))))).
Proof.
  intros Hgrouped Hc.
  rewrite calculate_chunk_ids_id_lookup, Hc. cbn.
  by rewrite spec_chunk_id_eq, (spec_chunk_index_count chunks i c Hgrouped Hc).
Qed.

(** X4. An id tells the page identity and the counter: two chunks, of one
    run of [calculate_chunk_ids] or of two, that got the same id have the
    same page identity and the same counter; when their sources are strings
    and their pages numbers, they have the same source and the same page. *)
Theorem calculate_chunk_ids_id_tells_page_and_index (chunks chunks' : list Document)
    (i k : nat) (c c' : Document) :
  chunks !! i = Some c →
  chunks' !! k = Some c' →
  (id_of <$> calculate_chunk_ids chunks) !! i
    = (id_of <$> calculate_chunk_ids chunks') !! k →
  page_id_of c = page_id_of c'
  ∧ spec_chunk_index chunks i = spec_chunk_index chunks' k
  ∧ (well_typed c → well_typed c' →
       metadata c !! "source" = metadata c' !! "source"
       ∧ metadata c !! "page" = metadata c' !! "page").
Proof.
  intros Hc Hc'. rewrite !calculate_chunk_ids_id_lookup, Hc, Hc'. cbn.
  intros [= Hid]. rewrite !spec_chunk_id_eq in Hid.
  apply chunk_id_string_inj in Hid as [Hpage Hindex].
  split_and!; [done|done|].
  intros Htyped Htyped'. by apply page_id_of_well_typed.
Qed.

(** Where the source is missing, the id starts with [None], as for a source
    that is the string ["None"]: the two get the same ids. *)
Example calculate_chunk_ids_missing_source :
  id_of <$> calculate_chunk_ids
    [{| page_content := "a"; metadata := {[ "page" := PInt 3 ]} |}]
  = id_of <$> calculate_chunk_ids [mk_chunk "b" "None" 3].
Proof. vm_compute. reflexivity. Qed.

End ChunkIdsMore.

(** ** calculate_chunk_ids: an object that the list refers to twice *)

Section InPlaceMore.

Lemma inplace_loop_last_write (chunks : list positive) (ds : list Document)
    (last_page_id : option string) (current_chunk_index : nat)
    (objs : gmap positive Document) :
  Forall2 (λ r d, ∃ d0, objs !! r = Some d0 ∧ same_but_id d d0) chunks ds →
  ∃ objs',
    InPlace.chunk_ids_loop last_page_id current_chunk_index chunks objs = Some objs'
    ∧ ∀ i r, chunks !! i = Some r → r ∉ drop (S i) chunks →
        id_of <$> objs' !! r
        = id_of <$> chunk_ids_loop last_page_id current_chunk_index ds !! i.
Proof.
  intros Hds. revert last_page_id current_chunk_index objs Hds.
  revert ds. induction chunks as [|r0 rest IH];
    intros ds last_page_id current_chunk_index objs Hds.
  { exists objs. split; [done|]. by intros i r Hi. }
  apply Forall2_cons_inv_l in Hds as (d & ds' & (d0 & Hd0 & Hsame) & Hrest & ->).
  cbn [InPlace.chunk_ids_loop chunk_ids_loop]. rewrite Hd0.
  rewrite (page_id_of_same_but_id d d0 Hsame).
  set (index' := next_chunk_index last_page_id (page_id_of d) current_chunk_index).
  set (new_id := PStr (chunk_id_string (page_id_of d) index')).
  set (objs1 := <[r0 := set_metadata d0 "id" new_id]> objs).
  assert (Forall2 (λ r d', ∃ d1, objs1 !! r = Some d1 ∧ same_but_id d' d1) rest ds')
    as Hrest1.
  { eapply Forall2_impl; [exact Hrest|]. intros r d' (d1 & Hd1 & Hsame1).
    unfold objs1. destruct (decide (r = r0)) as [->|Hne].
    - rewrite lookup_insert_eq. eexists. split; [done|].
      assert (d1 = d0) as -> by congruence.
      eapply same_but_id_trans; [done|apply same_but_id_set_metadata].
    - rewrite lookup_insert_ne by done. eauto. }
  destruct (IH ds' (Some (page_id_of d)) index' objs1 Hrest1) as (objs' & Hloop & Hlast).
  exists objs'. split; [done|]. intros i r Hi Hr. destruct i as [|i].
  - injection Hi as <-. change (drop 1 (r0 :: rest)) with rest in Hr.
    destruct (inplace_loop_frame rest (Some (page_id_of d)) index' objs1)
      as (objs'' & Hloop' & Hframe).
    { intros r Hin. apply list_elem_of_lookup_1 in Hin as [n Hn].
      destruct (Forall2_lookup_l _ _ _ _ _ Hrest1 Hn) as (d' & _ & d1 & Hd1 & _).
      by rewrite Hd1. }
    rewrite Hloop in Hloop'. injection Hloop' as <-.
    destruct (Hframe r0) as [_ Hsome].
    destruct (Hsome (set_metadata d0 "id" new_id)) as (d' & Hd' & _ & Hout & _).
    { unfold objs1. by rewrite lookup_insert_eq. }
    rewrite Hd', (Hout Hr). cbn. by rewrite !id_of_set_metadata.
  - change ((r0 :: rest) !! S i) with (rest !! i) in Hi.
    change (drop (S (S i)) (r0 :: rest)) with (drop (S i) rest) in Hr.
    by apply Hlast.
Qed.

(** X5. [calculate_chunk_ids] writes the id into the chunk object at every
    position of the list. When the list refers to one object more than once,
    each later position overwrites the id, and the object ends with the id
    of its last position: the id that the sequence of chunks, as listed,
    gets there. *)
Theorem calculate_chunk_ids_keeps_last_written_id (chunks : list positive)
    (ds : list Document) (objs : gmap positive Document) :
  InPlace.deref objs chunks = Some ds →
  ∃ objs',
    InPlace.calculate_chunk_ids chunks objs = Some (chunks, objs')
    ∧ ∀ i r, chunks !! i = Some r → r ∉ drop (S i) chunks →
        id_of <$> objs' !! r = (id_of <$> calculate_chunk_ids ds) !! i.
Proof.
  intros Hds. apply mapM_Some in Hds.
  destruct (inplace_loop_last_write chunks ds None 0 objs) as (objs' & Hloop & Hlast).
  { eapply Forall2_impl; [exact Hds|]. intros r d Hd.
    exists d. split; [done|apply same_but_id_refl]. }
  exists objs'. unfold InPlace.calculate_chunk_ids. rewrite Hloop. split; [done|].
  intros i r Hi Hr. rewrite list_lookup_fmap. by apply Hlast.
Qed.

End InPlaceMore.

(** ** add_to_chroma and populate_database: nothing to add, nothing loaded *)

Section IngestionMore.
Context {S Score : Type} `{!VectorStore S Score} `{!Services}.

(** X6. When the id of every chunk of the sequence is already stored (in
    particular when the sequence is empty), [add_to_chroma] makes no call of
    [add_documents] at all: whatever [add_documents] would do with a batch,
    it returns, leaves the collection and every other directory as they
    are, and prints that there is nothing to add. *)
Theorem add_to_chroma_nothing_new (chunks : list Document) (w : world S) :
  (∀ k, k ∈ id_of <$> calculate_chunk_ids chunks →
        k ∈ store_ids (collection CHROMA_PATH w)) →
  ∃ w',
    add_to_chroma chunks w = (Ok (), w')
    ∧ collection CHROMA_PATH w' = collection CHROMA_PATH w
    ∧ (∀ path, path ≠ CHROMA_PATH → fs w' !! path = fs w !! path)
    ∧ stdout w' = stdout w ++
        ["Number of existing documents in DB: "
           +:+ pretty (size (list_to_set (C := gset pyval)
                 (store_ids (collection CHROMA_PATH w))));
         "✅ No new documents to add"].
Proof.
  intros Hstored. rewrite add_to_chroma_run. cbn zeta.
  rewrite new_chunks_among_nil
    by (intros k Hk; by apply elem_of_list_to_set, Hstored).
  cbn [length]. rewrite decide_False by (intros Hne; by apply Hne).
  eexists. split; [done|]. split_and!.
  - rewrite collection_stdout. apply collection_opened.
  - intros path Hne. cbn [fs]. unfold opened.
    destruct (fs w !! CHROMA_PATH); [done|]. cbn. by rewrite lookup_insert_ne.
  - cbn [stdout]. by rewrite <-app_assoc.
Qed.

(** X8. When the loader fails, [populate_database] fails with the loader's
    exception before it opens the index: the file system and the output are
    as they were, and nothing is ingested. Through [chatbot] the populate
    request fails the same way, after the line that announces it. *)
Theorem populate_database_loader_fails (request : HttpRequest) (w : world S) (e : exn) :
  loader_load DATA_PATH = Raise e →
  populate_database w = (Raise e, w)
  ∧ (method request = "POST" →
     POST request !! "message" = Some "Populate" →
     chatbot request w
     = (Raise e, {| fs := fs w; stdout := stdout w ++ ["Populate Database"] |})).
Proof.
  intros Hload. split.
  - by rewrite populate_database_run, Hload.
  - intros Hmethod Hmessage.
    rewrite (chatbot_populate_run request w Hmethod Hmessage).
    by rewrite populate_database_run, Hload.
Qed.

End IngestionMore.

(** ** chatbot: the three directives *)

Section DispatchMore.
Context {S Score : Type} `{!VectorStore S Score} `{!Services}.

Lemma post_get_Some (request : HttpRequest) (text : string) :
  post_get request "message" = PStr text ↔ POST request !! "message" = Some text.
Proof.
  unfold post_get. destruct (POST request !! "message"); split; congruence.
Qed.

Lemma clear_database_deletes (w : world S) :
  clear_database w
  = (Ok (), {| fs := delete CHROMA_PATH (fs w); stdout := stdout w |}).
Proof.
  rewrite clear_database_run. destruct (fs w !! CHROMA_PATH) eqn:Hpath; [done|].
  destruct w as [f out]. cbn in *. by rewrite delete_id.
Qed.

Lemma chatbot_clear_run (request : HttpRequest) (w : world S) :
  method request = "POST" →
  POST request !! "message" = Some "Clear" →
  chatbot request w
  = (Ok (JsonResponse {[ "message" := PStr "Clear";
                         "response" := PStr "Database cleared" ]}),
     {| fs := delete CHROMA_PATH (fs w);
        stdout := stdout w ++ ["Clear Database"] |}).
Proof.
  intros Hmethod Hmessage. unfold chatbot, post_get.
  rewrite Hmethod, Hmessage. rewrite decide_True by done.
  rewrite decide_False by done. rewrite decide_True by done.
  erewrite bind_Ok by done.
  erewrite bind_Ok by apply clear_database_deletes. done.
Qed.

Lemma chatbot_query_run (request : HttpRequest) (w : world S) :
  method request = "POST" →
  post_get request "message" ≠ PStr "Populate" →
  post_get request "message" ≠ PStr "Clear" →
  chatbot request w =
    match ask_chroma (post_get request "message") 4 w with
    | (Ok response, w') =>
        (Ok (JsonResponse {[ "message" := post_get request "message";
                             "response" := PStr response ]}), w')
    | (Raise e, w') => (Raise e, w')
    end.
Proof.
  intros Hmethod Hpopulate Hclear. unfold chatbot.
  rewrite Hmethod. rewrite decide_True by done.
  rewrite !decide_False by done.
  destruct (ask_chroma _ _ _) as [[response|e] w'] eqn:Hask.
  - by erewrite bind_Ok.
  - by erewrite bind_Raise.
Qed.


(** X10. Every other POST message is a query: when the message is not
    exactly ["Populate"] or ["Clear"] (another spelling, or no message at
    all), [chatbot] answers with [ask_chroma] on that message and four
    results, returns its text as the response next to the message, and
    raises exactly when [ask_chroma] does. *)
Theorem chatbot_query (request : HttpRequest) (w : world S) :
  method request = "POST" →
  post_get request "message" ≠ PStr "Populate" →
  post_get request "message" ≠ PStr "Clear" →
  chatbot request w =
    match ask_chroma (post_get request "message") 4 w with
    | (Ok response, w') =>
        (Ok (JsonResponse {[ "message" := post_get request "message";
                             "response" := PStr response ]}), w')
    | (Raise e, w') => (Raise e, w')
    end
  ∧ (chatbot request w).2 = (ask_chroma (post_get request "message") 4 w).2.
Proof.
  intros Hmethod Hpopulate Hclear.
  rewrite (chatbot_query_run request w Hmethod Hpopulate Hclear).
  split; [done|]. by destruct (ask_chroma _ _ _) as [[response|e] w'].
Qed.

(** X11. The shape of what [chatbot] gives to a POST: when it returns, the
    response is a JSON object with exactly the two keys ["message"], the
    message of the request ([None] when it has none), and ["response"], a
    text: ["Database populated"] for the message ["Populate"], ["Database
    cleared"] for ["Clear"], and for every other message the text that
    [ask_chroma] returns for it. *)
Theorem chatbot_response_shape (request : HttpRequest) (w w' : world S)
    (response : HttpResponse) :
  method request = "POST" →
  chatbot request w = (Ok response, w') →
  ∃ text,
    response = JsonResponse {[ "message" := post_get request "message";
                               "response" := PStr text ]}
    ∧ (post_get request "message" = PStr "Populate" → text = "Database populated")
    ∧ (post_get request "message" = PStr "Clear" → text = "Database cleared")
    ∧ (post_get request "message" ≠ PStr "Populate" →
       post_get request "message" ≠ PStr "Clear" →
       (ask_chroma (post_get request "message") 4 w).1 = Ok text).
Proof.
  intros Hmethod.
  destruct (decide (post_get request "message" = PStr "Populate")) as [Hpopulate|Hpopulate].
  { pose proof (proj1 (post_get_Some request "Populate") Hpopulate) as Hmessage.
    rewrite (chatbot_populate_run request w Hmethod Hmessage).
    destruct (populate_database _) as [[[]|e] w1]; [|done].
    intros [= <- <-]. exists "Database populated". rewrite Hpopulate.
    split_and!; done. }
  destruct (decide (post_get request "message" = PStr "Clear")) as [Hclear|Hclear].
  { pose proof (proj1 (post_get_Some request "Clear") Hclear) as Hmessage.
    rewrite (chatbot_clear_run request w Hmethod Hmessage).
    intros [= <- <-]. exists "Database cleared". rewrite Hclear.
    split_and!; done. }
  rewrite (chatbot_query_run request w Hmethod Hpopulate Hclear).
  destruct (ask_chroma _ _ _) as [[text|e] w1]; [|done].
  intros [= <- <-]. exists text. split_and!; done.
Qed.

End DispatchMore.

Section PopulateTwice.
Context {S Score : Type} `{!VectorStore S Score} `{!VectorStoreLaws S Score}.

(** X12. A second populate request after one that returned, when the data
    directory gives at the second request the chunks it gave at the first
    (the loader and the splitter of the second request return what those of
    the first returned), returns the same response, finds every chunk id
    stored, adds nothing and leaves the file system as the first request
    left it; it prints that there is nothing to add. *)
Theorem chatbot_populate_twice (first second : Services) (request : HttpRequest)
    (w w1 : world S) (response : HttpResponse) (documents documents' : list Document) :
  method request = "POST" →
  POST request !! "message" = Some "Populate" →
  @chatbot S Score _ first request w = (Ok response, w1) →
  @loader_load first DATA_PATH = Ok documents →
  @loader_load second DATA_PATH = Ok documents' →
  @split_documents second documents' = @split_documents first documents →
  @chatbot S Score _ second request w1
  = (Ok response,
     {| fs := fs w1;
        stdout := stdout w1 ++
          ["Populate Database";
           "Number of existing documents in DB: "
             +:+ pretty (size (list_to_set (C := gset pyval)
                   (store_ids (collection CHROMA_PATH w1))));
           "✅ No new documents to add"] |}).
Proof.
  intros Hmethod Hmessage Hfirst Hload Hload' Hsplit.
  rewrite (chatbot_populate_run (H := first) request w Hmethod Hmessage) in Hfirst.
  rewrite populate_database_run, Hload in Hfirst.
  rewrite (chatbot_populate_run (H := second) request w1 Hmethod Hmessage).
  rewrite populate_database_run, Hload', Hsplit.
  set (chunks := @split_documents first documents) in *.
  set (w0 := {| fs := fs w; stdout := stdout w ++ ["Populate Database"] |}) in *.
  destruct (add_to_chroma chunks w0) as [[[]|e] w_after] eqn:Hrun; [|done].
  injection Hfirst as <- Hw. subst w_after.
  set (w1' := {| fs := fs w1; stdout := stdout w1 ++ ["Populate Database"] |}).
  assert (is_Some (fs w1 !! CHROMA_PATH)) as Hopen.
  { rewrite <-(add_to_chroma_leaves_index chunks w0 w1 _ Hrun).
    apply opened_is_Some. }
  rewrite add_to_chroma_run. cbn zeta.
  change (collection CHROMA_PATH w1') with (collection CHROMA_PATH w1).
  rewrite new_chunks_among_nil; cycle 1.
  { intros k Hk. apply elem_of_list_to_set.
    by apply (add_to_chroma_stores_ids chunks w0 w1). }
  cbn [length]. rewrite decide_False by (intros Hne; by apply Hne).
  rewrite (opened_present CHROMA_PATH w1') by done.
  unfold w1'. cbn [fs stdout]. by rewrite <-!app_assoc.
Qed.

End PopulateTwice.

(** ** ask_chroma: the size of the context, and failures *)

Section RetrievalMore.
Context {S Score : Type} `{!VectorStore S Score} `{!Services}.

Lemma length_append (s1 s2 : string) :
  String.length (s1 +:+ s2) = String.length s1 + String.length s2.
Proof.
  induction s1 as [|a s1 IH]; [done|].
  rewrite append_cons_l. cbn [String.length]. by rewrite IH.
Qed.

Lemma length_concat (sep : string) (texts : list string) :
  String.length (String.concat sep texts)
  = sum_list (String.length <$> texts) + String.length sep * (length texts - 1).
Proof.
  induction texts as [|x texts IH]; [cbn; lia|].
  destruct texts as [|y texts].
  { cbn. lia. }
  rewrite concat_cons_cons, !length_append, IH.
  cbn [fmap list_fmap sum_list sum_list_with length]. unfold id.
  rewrite !Nat.sub_succ, !Nat.sub_0_r, Nat.mul_succ_r. lia.
Qed.

(** X13. The context block holds the texts of all results in full: its
    length is the sum of the lengths of the texts plus seven characters of
    separator for each of the gaps between them. Nothing is cut and no text
    is dropped, whatever the number and the size of the results. *)
Theorem ask_chroma_context_length (results : list (Document * Score)) :
  String.length (context_text_of results)
  = sum_list ((λ r, String.length (page_content r.1)) <$> results)
    + 7 * (length results - 1).
Proof.
  unfold context_text_of. rewrite length_concat, length_fmap.
  rewrite <-list_fmap_compose. done.
Qed.

(** X14. [ask_chroma] passes a failure of the search on, and a failure of
    the model after a search that returned, and has printed nothing then;
    when it returns it has printed the text it returns, once, after what
    was printed before. Either way it leaves the collection as it was. *)
Theorem ask_chroma_outcomes (message : pyval) (n_results : Z) (w : world S) :
  (∀ e,
     store_similarity_search_with_score message n_results (collection CHROMA_PATH w)
       = Raise e →
     ∃ w', ask_chroma message n_results w = (Raise e, w')
           ∧ stdout w' = stdout w
           ∧ collection CHROMA_PATH w' = collection CHROMA_PATH w)
  ∧ (∀ results e,
       store_similarity_search_with_score message n_results (collection CHROMA_PATH w)
         = Ok results →
       model_invoke
         (prompt_template_format PROMPT_TEMPLATE (context_text_of results) message)
         = Raise e →
       ∃ w', ask_chroma message n_results w = (Raise e, w')
             ∧ stdout w' = stdout w
             ∧ collection CHROMA_PATH w' = collection CHROMA_PATH w)
  ∧ (∀ response w',
       ask_chroma message n_results w = (Ok response, w') →
       stdout w' = stdout w ++ [response]
       ∧ collection CHROMA_PATH w' = collection CHROMA_PATH w).
Proof.
  rewrite ask_chroma_run. split_and!.
  - intros e ->. eexists. split; [done|].
    by rewrite collection_opened, stdout_opened.
  - intros results e -> Hmodel. cbn zeta. rewrite Hmodel. eexists. split; [done|].
    by rewrite collection_opened, stdout_opened.
  - intros response w'.
    destruct (store_similarity_search_with_score _ _ _) as [results|e]; [|done].
    cbn zeta. destruct (model_invoke _) as [answer|e]; [|done].
    intros [= <- <-]. by rewrite collection_stdout, collection_opened.
Qed.

End RetrievalMore.

(** ** The further statements at concrete inputs *)

Section InstancesMore.

Lemma stale_documents_same_but_id : Forall2 same_but_id two_documents stale_documents.
Proof.
  unfold stale_documents, two_documents. cbn [fmap list_fmap].
  repeat constructor; apply same_but_id_set_metadata.
Qed.

Lemma calculate_chunk_ids_overwrites_ids_witness :
  Forall2 same_but_id two_documents stale_documents
  ∧ calculate_chunk_ids stale_documents = calculate_chunk_ids two_documents
  ∧ calculate_chunk_ids (calculate_chunk_ids stale_documents)
    = calculate_chunk_ids two_documents.
Proof.
  split; [exact stale_documents_same_but_id|].
  exact (calculate_chunk_ids_overwrites_ids two_documents stale_documents
           stale_documents_same_but_id).
Defined.

Example stale_documents_ids :
  id_of <$> stale_documents
    = [PStr "stale"; PStr "stale"; PStr "stale"; PStr "stale"]
  ∧ id_of <$> calculate_chunk_ids stale_documents
    = [PStr "doc.pdf:0:0"; PStr "doc.pdf:0:1"; PStr "doc.pdf:1:0"; PStr "other.pdf:0:0"].
Proof. split; vm_compute; reflexivity. Qed.

Lemma calculate_chunk_ids_counts_from_run_start_witness :
  interleaved_chunks !! 2 = Some (mk_chunk "c" "doc.pdf" 0)
  ∧ ∃ start,
      start ≤ 2
      ∧ (id_of <$> calculate_chunk_ids interleaved_chunks) !! 2
        = Some (PStr (chunk_id_string (page_id_of (mk_chunk "c" "doc.pdf" 0))
                  (2 - start)))
      ∧ (∀ m, start ≤ m ≤ 2 →
           ∃ d, interleaved_chunks !! m = Some d
                ∧ page_id_of d = page_id_of (mk_chunk "c" "doc.pdf" 0))
      ∧ (start = 0
         ∨ ∃ p, interleaved_chunks !! (start - 1) = Some p
                ∧ page_id_of p ≠ page_id_of (mk_chunk "c" "doc.pdf" 0)).
Proof.
  split; [reflexivity|].
  exact (calculate_chunk_ids_counts_from_run_start interleaved_chunks 2
           (mk_chunk "c" "doc.pdf" 0) eq_refl).
Defined.

Lemma two_documents_page_grouped : page_grouped two_documents.
Proof. apply contiguous_page_grouped. vm_compute. reflexivity. Qed.

Lemma calculate_chunk_ids_numbers_pages_without_gaps_witness :
  page_grouped two_documents
  ∧ two_documents !! 1 = Some (mk_chunk "b" "doc.pdf" 0)
  ∧ (id_of <$> calculate_chunk_ids two_documents) !! 1
    = Some (PStr (chunk_id_string (page_id_of (mk_chunk "b" "doc.pdf" 0))
              (length (filter
                 (λ d, page_id_of d = page_id_of (mk_chunk "b" "doc.pdf" 0))
                 (take 1 two_documents))))).
Proof.
  split; [exact two_documents_page_grouped|]. split; [reflexivity|].
  exact (calculate_chunk_ids_numbers_pages_without_gaps two_documents 1
           (mk_chunk "b" "doc.pdf" 0) two_documents_page_grouped eq_refl).
Defined.

Example two_documents_same_id_across_runs :
  (id_of <$> calculate_chunk_ids two_documents) !! 1
  = (id_of <$> calculate_chunk_ids
       [mk_chunk "y" "doc.pdf" 0; mk_chunk "z" "doc.pdf" 0]) !! 1.
Proof. vm_compute. reflexivity. Qed.

Lemma calculate_chunk_ids_id_tells_page_and_index_witness :
  two_documents !! 1 = Some (mk_chunk "b" "doc.pdf" 0)
  ∧ [mk_chunk "y" "doc.pdf" 0; mk_chunk "z" "doc.pdf" 0] !! 1
    = Some (mk_chunk "z" "doc.pdf" 0)
  ∧ (id_of <$> calculate_chunk_ids two_documents) !! 1
    = (id_of <$> calculate_chunk_ids
         [mk_chunk "y" "doc.pdf" 0; mk_chunk "z" "doc.pdf" 0]) !! 1
  ∧ page_id_of (mk_chunk "b" "doc.pdf" 0) = page_id_of (mk_chunk "z" "doc.pdf" 0)
  ∧ spec_chunk_index two_documents 1
    = spec_chunk_index [mk_chunk "y" "doc.pdf" 0; mk_chunk "z" "doc.pdf" 0] 1.
Proof.
  split; [reflexivity|]. split; [reflexivity|].
  split; [exact two_documents_same_id_across_runs|].
  destruct (calculate_chunk_ids_id_tells_page_and_index two_documents
              [mk_chunk "y" "doc.pdf" 0; mk_chunk "z" "doc.pdf" 0] 1 1
              (mk_chunk "b" "doc.pdf" 0) (mk_chunk "z" "doc.pdf" 0)
              eq_refl eq_refl two_documents_same_id_across_runs)
    as (Hpage & Hindex & _).
  split; [exact Hpage|exact Hindex].
Defined.

Example shared_chunks_deref :
  InPlace.deref shared_objects shared_chunks
  = Some [mk_chunk "a" "doc.pdf" 0; mk_chunk "b" "doc.pdf" 0; mk_chunk "a" "doc.pdf" 0].
Proof. vm_compute. reflexivity. Qed.

Lemma calculate_chunk_ids_keeps_last_written_id_witness :
  InPlace.deref shared_objects shared_chunks
  = Some [mk_chunk "a" "doc.pdf" 0; mk_chunk "b" "doc.pdf" 0; mk_chunk "a" "doc.pdf" 0]
  ∧ ∃ objs',
      InPlace.calculate_chunk_ids shared_chunks shared_objects
      = Some (shared_chunks, objs')
      ∧ ∀ i r, shared_chunks !! i = Some r → r ∉ drop (S i) shared_chunks →
          id_of <$> objs' !! r
          = (id_of <$> calculate_chunk_ids
               [mk_chunk "a" "doc.pdf" 0; mk_chunk "b" "doc.pdf" 0;
                mk_chunk "a" "doc.pdf" 0]) !! i.
Proof.
  split; [exact shared_chunks_deref|].
  exact (calculate_chunk_ids_keeps_last_written_id shared_chunks _ shared_objects
           shared_chunks_deref).
Defined.

Example dedup_stored_chunks_ids :
  id_of <$> calculate_chunk_ids dedup_stored_chunks = [PStr "A:0:0"; PStr "A:0:1"]
  ∧ store_ids (collection CHROMA_PATH dedup_world) = [PStr "A:0:1"; PStr "A:0:0"].
Proof. split; vm_compute; reflexivity. Qed.

Lemma dedup_stored_chunks_stored (k : pyval) :
  k ∈ id_of <$> calculate_chunk_ids dedup_stored_chunks →
  k ∈ store_ids (collection CHROMA_PATH dedup_world).
Proof.
  destruct dedup_stored_chunks_ids as [-> ->].
  rewrite !elem_of_cons, !elem_of_nil. tauto.
Qed.

Lemma add_to_chroma_nothing_new_witness :
  (∀ k, k ∈ id_of <$> calculate_chunk_ids dedup_stored_chunks →
        k ∈ store_ids (collection CHROMA_PATH dedup_world))
  ∧ ∃ w',
      run_add_to_chroma dedup_stored_chunks dedup_world = (Ok (), w')
      ∧ collection CHROMA_PATH w' = collection CHROMA_PATH dedup_world.
Proof.
  split; [exact dedup_stored_chunks_stored|].
  destruct (add_to_chroma_nothing_new (S := gmap pyval Document) (Score := nat)
              dedup_stored_chunks dedup_world dedup_stored_chunks_stored)
    as (w' & Hrun & Hcollection & _).
  exists w'. split; [exact Hrun|exact Hcollection].
Defined.

(** The strict collection would refuse any batch with a repeated id; with
    nothing new there is no batch. *)
Example add_to_chroma_nothing_new_strict :
  (@add_to_chroma (gmap pyval Document) nat strict_store
     dedup_stored_chunks dedup_world).1 = Ok ().
Proof. vm_compute. reflexivity. Qed.

Lemma populate_database_loader_fails_witness :
  @loader_load failing_loader_services DATA_PATH
  = Raise (ServiceError "unreadable pdf")
  ∧ @populate_database (gmap pyval Document) nat map_store failing_loader_services
      empty_world
    = (Raise (ServiceError "unreadable pdf"), empty_world).
Proof.
  split; [reflexivity|].
  exact (proj1 (populate_database_loader_fails (S := gmap pyval Document) (Score := nat)
                  (H := failing_loader_services) populate_request empty_world
                  (ServiceError "unreadable pdf") eq_refl)).
Defined.


Example chatbot_clear_response :
  (λ run, (run.1, fs run.2 !! CHROMA_PATH, stdout run.2))
    (run_chatbot clear_request dedup_world)
  = (Ok (JsonResponse {[ "message" := PStr "Clear";
                         "response" := PStr "Database cleared" ]}),
     None, ["Clear Database"]).
Proof. vm_compute. reflexivity. Qed.

Lemma query_request_not_populate : post_get query_request "message" ≠ PStr "Populate".
Proof. intros Heq. vm_compute in Heq. discriminate. Qed.

Lemma query_request_not_clear : post_get query_request "message" ≠ PStr "Clear".
Proof. intros Heq. vm_compute in Heq. discriminate. Qed.

Lemma chatbot_query_witness :
  method query_request = "POST"
  ∧ post_get query_request "message" ≠ PStr "Populate"
  ∧ post_get query_request "message" ≠ PStr "Clear"
  ∧ (run_chatbot query_request dedup_world).2
    = (run_ask_chroma (post_get query_request "message") 4 dedup_world).2.
Proof.
  split; [reflexivity|]. split; [exact query_request_not_populate|].
  split; [exact query_request_not_clear|].
  exact (proj2 (chatbot_query (S := gmap pyval Document) (Score := nat)
                  (H := example_services) query_request dedup_world eq_refl
                  query_request_not_populate query_request_not_clear)).
Defined.

(** The message ["populate"], in lower case, is a query, and a request that
    is not a POST renders the page. *)
Example chatbot_query_lower_case :
  (run_chatbot query_request dedup_world).1
  = Ok (JsonResponse
          {[ "message" := PStr "populate";
             "response" := PStr "Response: echo Human: old second

---

old first | populate<br>Sources: ['A:0:1', 'A:0:0']" ]}).
Proof. vm_compute. reflexivity. Qed.

Example chatbot_get :
  run_chatbot get_request dedup_world = (Ok (render get_request "chatbot.html"), dedup_world).
Proof. reflexivity. Qed.

Lemma chatbot_response_shape_witness :
  method populate_request = "POST"
  ∧ run_chatbot populate_request empty_world
    = (Ok (JsonResponse {[ "message" := PStr "Populate";
                           "response" := PStr "Database populated" ]}),
       populated_world)
  ∧ ∃ text,
      JsonResponse {[ "message" := PStr "Populate";
                      "response" := PStr "Database populated" ]}
      = JsonResponse {[ "message" := post_get populate_request "message";
                        "response" := PStr text ]}
      ∧ (post_get populate_request "message" = PStr "Populate"
         → text = "Database populated").
Proof.
  split; [reflexivity|]. split; [exact chatbot_populate_first|].
  destruct (chatbot_response_shape (S := gmap pyval Document) (Score := nat)
              (H := example_services) populate_request empty_world populated_world _
              eq_refl chatbot_populate_first)
    as (text & Hshape & Hpopulate & _).
  exists text. split; [exact Hshape|exact Hpopulate].
Defined.

Lemma chatbot_populate_twice_witness :
  method populate_request = "POST"
  ∧ POST populate_request !! "message" = Some "Populate"
  ∧ run_chatbot populate_request empty_world
    = (Ok (JsonResponse {[ "message" := PStr "Populate";
                           "response" := PStr "Database populated" ]}),
       populated_world)
  ∧ @loader_load example_services DATA_PATH
    = Ok [mk_chunk "abc" "data/doc.pdf" 0]
  ∧ @loader_load later_services DATA_PATH
    = Ok [mk_chunk "a" "data/doc.pdf" 0; mk_chunk "b" "data/doc.pdf" 0;
          mk_chunk "c" "data/doc.pdf" 0]
  ∧ @split_documents later_services
      [mk_chunk "a" "data/doc.pdf" 0; mk_chunk "b" "data/doc.pdf" 0;
       mk_chunk "c" "data/doc.pdf" 0]
    = @split_documents example_services [mk_chunk "abc" "data/doc.pdf" 0]
  ∧ @chatbot (gmap pyval Document) nat map_store later_services
      populate_request populated_world
    = (Ok (JsonResponse {[ "message" := PStr "Populate";
                           "response" := PStr "Database populated" ]}),
       {| fs := fs populated_world;
          stdout := stdout populated_world ++
            ["Populate Database";
             "Number of existing documents in DB: "
               +:+ pretty (size (list_to_set (C := gset pyval)
                     (store_ids (collection CHROMA_PATH populated_world))));
             "✅ No new documents to add"] |}).
Proof.
  split; [reflexivity|]. split; [reflexivity|].
  split; [exact chatbot_populate_first|].
  split; [reflexivity|]. split; [reflexivity|]. split; [reflexivity|].
  exact (chatbot_populate_twice (S := gmap pyval Document) (Score := nat)
           example_services later_services
           populate_request empty_world populated_world _ _ _
           eq_refl eq_refl chatbot_populate_first eq_refl eq_refl eq_refl).
Defined.

(** A failing model: the query fails with the model's exception and nothing
    is printed. *)
Example ask_chroma_model_fails :
  (λ run, (run.1, stdout run.2))
    (@ask_chroma (gmap pyval Document) nat map_store failing_model_services
       (PStr "q") 4 dedup_world)
  = (Raise (ServiceError "model unreachable"), []).
Proof. vm_compute. reflexivity. Qed.

Example ask_chroma_context_length_two :
  String.length (context_text_of
    [(mk_chunk "old second" "A" 0, 0); (mk_chunk "old first" "A" 0, 1)])
  = 10 + 9 + 7.
Proof. vm_compute. reflexivity. Qed.

End InstancesMore.
